(** * Conway's Game of Life (pygame front end): a shallow embedding

    The program under study is [main_v.1.0.3.py].  The board is a numpy
    array that is edited in place while the game is paused and replaced
    by a fresh array at every tick.  Because several statements of the
    specification are about which array object is written, arrays live
    in an explicit store and every array operation is a computation in
    a small state-and-exception monad over that store.

    Modelling conventions:
    - numpy cells are float64 in the source ([np.zeros]); only the
      values 0.0 and 1.0 and comparisons with 0 and 1 occur, so a cell
      is an integer here;
    - [int(a / b)] is a float division followed by truncation toward
      zero; for pixel coordinates (magnitudes below 2^53) this is
      [Z.quot a b];
    - an uncaught Python exception (IndexError, ValueError,
      ZeroDivisionError) is [None];
    - calls into pygame that only draw ([pygame.draw.rect],
      [pygame.display.update], [draw], [draw_play], [draw_pause]) do
      not touch any array and are left out; the TICK timer, which the
      program arms with [pygame.time.set_timer], is part of the state. *)

From stdpp Require Import gmap list.
From Stdlib Require Import ZArith Lia.

Local Open Scope Z_scope.

(** ** numpy arrays and the store *)

Abbreviation loc := nat.

(** A two-dimensional array, outer list = first axis. *)
Abbreviation ndarray := (list (list Z)).

Abbreviation heap := (gmap loc ndarray).

(** numpy arrays are rectangular by construction. *)
Definition rect (a : ndarray) : Prop :=
  Forall (λ row, length row = length (hd [] a)) a.

(** [np.shape(a)] *)
Definition np_shape (a : ndarray) : Z * Z :=
  (Z.of_nat (length a), Z.of_nat (length (hd [] a))).

(** Index normalisation of numpy along an axis of length [n]: indices
    [0..n-1] are themselves, [-n..-1] count from the end, anything else
    raises IndexError. *)
Definition np_index (n : nat) (i : Z) : option nat :=
  if decide (0 ≤ i < Z.of_nat n) then Some (Z.to_nat i)
  else if decide (- Z.of_nat n ≤ i < 0) then Some (Z.to_nat (i + Z.of_nat n))
  else None.

(** [a[i, j]] *)
Definition nd_get (a : ndarray) (i j : Z) : option Z :=
  r ← np_index (length a) i;
  row ← a !! r;
  c ← np_index (length row) j;
  row !! c.

(** [a[i, j] = v] *)
Definition nd_set (a : ndarray) (i j : Z) (v : Z) : option ndarray :=
  r ← np_index (length a) i;
  row ← a !! r;
  c ← np_index (length row) j;
  Some (<[r := <[c := v]> row]> a).

(** ** The state-and-exception monad *)

Definition M (A : Type) : Type := heap → option (A * heap).

Definition ret {A} (a : A) : M A := λ h, Some (a, h).

Definition bind {A B} (m : M A) (k : A → M B) : M B :=
  λ h, match m h with
       | Some (a, h') => k a h'
       | None => None
       end.

Definition raise {A} : M A := λ _, None.

Global Instance M_ret : MRet M := @ret.
Global Instance M_bind : MBind M := λ A B k m, bind m k.

(** A Python [for] loop over a list whose body updates an accumulator. *)
Fixpoint for_fold {A S} (xs : list A) (body : A → S → M S) (s : S) : M S :=
  match xs with
  | [] => mret s
  | x :: xs' => s' ← body x s; for_fold xs' body s'
  end.

(** A Python [for] loop run for its effects on the store. *)
Definition for_each {A} (xs : list A) (body : A → M unit) : M unit :=
  for_fold xs (λ x _, body x) tt.

(** Allocation of a new array object. *)
Definition alloc (a : ndarray) : M loc :=
  λ h, let l := fresh (dom h) in Some (l, <[l := a]> h).

(** [np.zeros((w, h))]; a negative dimension raises ValueError. *)
Definition np_zeros (w h : Z) : M loc :=
  if decide (0 ≤ w ∧ 0 ≤ h)
  then alloc (replicate (Z.to_nat w) (replicate (Z.to_nat h) 0))
  else raise.

(** [np.copy(l)] *)
Definition np_copy (l : loc) : M loc :=
  λ h, match h !! l with
       | Some a => alloc a h
       | None => None
       end.

(** [np.shape(l)] *)
Definition shape (l : loc) : M (Z * Z) :=
  λ h, a ← h !! l; Some (np_shape a, h).

(** [l[i, j]] *)
Definition getitem (l : loc) (i j : Z) : M Z :=
  λ h, a ← h !! l; v ← nd_get a i j; Some (v, h).

(** [l[i, j] = v] *)
Definition setitem (l : loc) (i j : Z) (v : Z) : M unit :=
  λ h, a ← h !! l; a' ← nd_set a i j v; Some (tt, <[l := a']> h).

(** ** The source functions *)

Definition colour := (Z * Z * Z)%type.
Definition WHITE : colour := (255, 255, 255).
Definition BLACK : colour := (0, 0, 0).

Definition HORIZONTAL_CELLS : Z := 30.
Definition VERTICAL_CELLS : Z := 20.
Definition BORDER : Z := 2.
Definition TICK_SPEED : Z := 20.

Definition createBoard (width height : Z) : M loc :=
  np_zeros width height.

Definition pos_to_square (pos : Z * Z) (cellsize border_size dim_x dim_y : Z)
  : option ((Z * Z) * bool) :=
  if decide (cellsize + border_size = 0) then None
  else
    let x := Z.quot (fst pos) (cellsize + border_size) in
    let y := Z.quot (snd pos) (cellsize + border_size) in
    let x := if decide (dim_y ≤ x) then dim_y - 1 else x in
    let y := if decide (dim_x ≤ y) then dim_x - 1 else y in
    let pause := bool_decide (x = y ∧ y = 0) in
    let square := (x, y - 1) in
    Some (square, pause).

Definition change_square (mainBoard : loc) (square : Z * Z) : M loc :=
  state ← getitem mainBoard (snd square) (fst square);
  (if decide (state = 0)
   then setitem mainBoard (snd square) (fst square) 1
   else setitem mainBoard (snd square) (fst square) 0);;
  mret mainBoard.

Definition rules (alive count : Z) : Z * colour :=
  if (alive =? 1) && ((count =? 2) || (count =? 3)) then (1, WHITE)
  else if (alive =? 0) && (count =? 3) then (1, WHITE)
  else (0, BLACK).

(** The list [nPos] of the eight neighbour positions of [(i, j)]. *)
Definition nPos (i j : Z) : list (Z * Z) :=
  [(i - 1, j); (i - 1, j - 1); (i, j - 1); (i + 1, j - 1);
   (i + 1, j); (i + 1, j + 1); (i, j + 1); (i - 1, j + 1)].

(** The two [if]s at the head of the neighbour loop. *)
Definition fold_over (width height : Z) (neighbour : Z * Z) : Z * Z :=
  let neighbour :=
    if decide (fst neighbour = width) then (0, snd neighbour) else neighbour in
  let neighbour :=
    if decide (snd neighbour = height) then (fst neighbour, 0) else neighbour in
  neighbour.

(** The loop [for neighbour in nPos] with its counter. *)
Definition count_neighbours (board : loc) (width height i j : Z) : M Z :=
  for_fold (nPos i j)
    (λ neighbour count,
       let neighbour := fold_over width height neighbour in
       v ← getitem board (fst neighbour) (snd neighbour);
       mret (if decide (v = 1) then count + 1 else count))
    0.

(** [tick].  [enumerate(board)] runs over the first axis and
    [enumerate(x)] over the row [x], which is a view of [board]: the
    value [y] is the cell of [board] at the time it is reached.  The
    result of [rules] is stored twice, as in the source. *)
Definition tick (board : loc) : M loc :=
'(width, height) ← shape board;
  outputBoard ← np_copy board;
  for_each (seqZ 0 width) (λ i,
    for_each (seqZ 0 height) (λ j,
      y ← getitem board i j;
      count ← count_neighbours board width height i j;
      setitem outputBoard i j (fst (rules y count));;
      setitem outputBoard i j (fst (rules y count))));;
  mret outputBoard.

(** ** The event loops

    [pygame.event.get()] hands the loops one batch of events at a time.
    A MOUSEBUTTONDOWN event carries what the two queries made while it
    is handled return: [pygame.mouse.get_pressed(num_buttons=5)[0]] and
    [pygame.mouse.get_pos()]. *)

Inductive event :=
  | QUIT
  | MOUSEBUTTONDOWN (pressed : bool) (pos : Z * Z)
  | TICK
  | OTHER.

(** What the loops act on: the store, the local variable [mainBoard]
    and the interval of the TICK timer ([None] while it was never
    armed). *)
Record game := Game {
  store : heap;
  mainBoard : loc;
  timer : option Z
}.

(** [pygame.time.set_timer(TICK, TICK_SPEED)] *)
Definition set_timer (g : game) : game :=
  Game (store g) (mainBoard g) (Some TICK_SPEED).

(** Where control is: in the loop of [paused], in the loop of [play],
    after [pygame.quit()], or stopped by an exception.

    [paused] and [play] call each other, so the Python stack grows by
    one frame at every mode change and only QUIT makes a frame return.
    The model follows the innermost frame up to the first QUIT; what
    the outer frames do while the stack unwinds after [pygame.quit()]
    is not modelled.  The growth of the stack itself is accounted for
    by [run_stack] below. *)
Inductive control :=
  | InPaused (g : game)
  | InPlay (g : game)
  | Exited
  | Crashed.

Section Loops.
Variables cellsize border_size dimx dimy : Z.

(** One pass of [for event in pygame.event.get()] in [paused].  A
    click on the control square arms the timer and calls [play]; the
    events left in the batch wait in this frame until [play] returns. *)
Fixpoint paused_events (es : list event) (g : game) : control :=
  match es with
  | [] => InPaused g
  | QUIT :: _ => Exited
  | MOUSEBUTTONDOWN pressed pos :: es' =>
      if pressed then
        match pos_to_square pos cellsize border_size dimx dimy with
        | None => Crashed
        | Some (square, pause) =>
            if pause then InPlay (set_timer g)
            else if decide (snd square = -1) then paused_events es' g
            else
              match change_square (mainBoard g) square (store g) with
              | None => Crashed
              | Some (b, h) => paused_events es' (Game h b (timer g))
              end
        end
      else paused_events es' g
  | _ :: es' => paused_events es' g
  end.

(** One pass of [for event in pygame.event.get()] in [play]; [pause]
    is the local flag, reset to [False] before every pass. *)
Fixpoint play_events (es : list event) (pause : bool) (g : game)
  : option (option (bool * game)) :=
  match es with
  | [] => Some (Some (pause, g))
  | QUIT :: _ => Some None
  | MOUSEBUTTONDOWN pressed pos :: es' =>
      if pressed then
        match pos_to_square pos cellsize border_size dimx dimy with
        | None => None
        | Some (square, pause') => play_events es' pause' g
        end
      else play_events es' pause g
  | TICK :: es' =>
      match (c ← np_copy (mainBoard g); tick c) (store g) with
      | None => None
      | Some (b, h) => play_events es' pause (Game h b (Some TICK_SPEED))
      end
  | OTHER :: es' => play_events es' pause g
  end.

(** One iteration of [while t] in [play]. *)
Definition play_pass (es : list event) (g : game) : control :=
  match play_events es false g with
  | None => Crashed
  | Some None => Exited
  | Some (Some (pause, g')) => if pause then InPaused g' else InPlay g'
  end.

(** One batch of events, handled by whichever loop is running. *)
Definition step (c : control) (es : list event) : control :=
  match c with
  | InPaused g => paused_events es g
  | InPlay g => play_pass es g
  | Exited => Exited
  | Crashed => Crashed
  end.

Definition run (c : control) (batches : list (list event)) : control :=
  foldl step c batches.

(** [init], as far as the board is concerned: the game starts in
    [paused] on the board it is given. *)
Definition init (mainBoard : loc) (h : heap) : control :=
  InPaused (Game h mainBoard None).

End Loops.

(** The main program: [createBoard(VERTICAL_CELLS, HORIZONTAL_CELLS)]
    followed by [init], which fixes [cellsize = 30] and
    [border_size = BORDER]. *)
Definition main (batches : list (list event)) : control :=
  match createBoard VERTICAL_CELLS HORIZONTAL_CELLS ∅ with
  | None => Crashed
  | Some (b, h) =>
      run 30 BORDER VERTICAL_CELLS HORIZONTAL_CELLS (init b h) batches
  end.

(** ** The specification's reading of the neighbourhood

    The eight neighbours on the torus: both coordinates are taken
    modulo the array's dimensions. *)

Definition offsets : list (Z * Z) :=
  [(-1, 0); (-1, -1); (0, -1); (1, -1); (1, 0); (1, 1); (0, 1); (-1, 1)].

Definition alive (b : ndarray) (r c : Z) : Z :=
  match nd_get b r c with
  | Some v => if decide (v = 1) then 1 else 0
  | None => 0
  end.

Definition torus_count (b : ndarray) (i j : Z) : Z :=
  let '(rows, cols) := np_shape b in
  foldr Z.add 0
    ((λ d, alive b ((i + fst d) `mod` rows) ((j + snd d) `mod` cols)) <$> offsets).

(** Every cell is 0 or 1. *)
Definition binary (b : ndarray) : Prop :=
  Forall (Forall (λ v, v = 0 ∨ v = 1)) b.

(** A game is well formed when its board is a rectangular array of
    zeros and ones; [invariant] asks this of a running loop. *)
Definition good (g : game) : Prop :=
  ∃ b, store g !! mainBoard g = Some b ∧ rect b ∧ binary b.

Definition invariant (c : control) : Prop :=
  match c with
  | InPaused g | InPlay g => good g
  | Exited | Crashed => True
  end.

(** A 3 x 3 board holding a vertical blinker, used to instantiate the
    statements below. *)
Definition blinker : ndarray := [[0; 1; 0]; [0; 1; 0]; [0; 1; 0]].

(** The game as [main] starts it, and the same game once the timer
    has been armed. *)
Definition start_board : ndarray :=
  replicate (Z.to_nat VERTICAL_CELLS) (replicate (Z.to_nat HORIZONTAL_CELLS) 0).
Definition start_game : game := Game {[0%nat := start_board]} 0%nat None.
Definition running_game : game := set_timer start_game.

(** ** Drawing

    The pygame surface is modelled by the list of drawing calls made on
    it, oldest first.  [DrawRect col r width] is
    [pygame.draw.rect(surface, col, r, width)] with [width = 0] for a
    filled rectangle, [r] being (left, top, width, height);
    [DisplayUpdate] is [pygame.display.update()]. *)

Definition LIGHTGRAY : colour := (175, 175, 175).
Definition GRAY : colour := (100, 100, 100).
Definition RED : colour := (200, 10, 20).

Inductive drawing :=
  | DrawRect (col : colour) (r : Z * Z * Z * Z) (width : Z)
  | DrawPolygon (col : colour) (points : list (Z * Z))
  | DisplayUpdate.

(** The rectangle in which [draw] and [tick] paint cell [(i, j)]. *)
Definition cell_rect (cellsize border_size i j : Z) : Z * Z * Z * Z :=
  (border_size + j * (cellsize + border_size),
   border_size + (i + 1) * (cellsize + border_size),
   cellsize, cellsize).

(** [draw].  As in [tick], [enumerate] runs over the two axes of the
    board and [y] is read from the board when the cell is reached. *)
Definition draw (board : loc) (surface : list drawing) (cellsize border_size : Z)
  : M (loc * list drawing) :=
  '(width, height) ← shape board;
  surface ← for_fold (seqZ 0 width) (λ i surface,
    for_fold (seqZ 0 height) (λ j surface,
      y ← getitem board i j;
      let col := if decide (y = 0) then BLACK else WHITE in
      mret (surface ++ [DrawRect col (cell_rect cellsize border_size i j) 0]))
      surface) surface;
  mret (board, surface).

Definition draw_pause (surface : list drawing) (border_size cellsize : Z)
  : list drawing :=
  surface ++
  [DrawRect LIGHTGRAY (border_size, border_size, cellsize, cellsize) 0;
   DrawRect GRAY (border_size + 2, border_size + 2, cellsize - 4, cellsize - 4) 2;
   DrawRect BLACK (border_size + 9, border_size + 7, 4, cellsize - 14) 0;
   DrawRect BLACK (border_size + 17, border_size + 7, 4, cellsize - 14) 0;
   DisplayUpdate].

Definition draw_play (surface : list drawing) (border_size cellsize : Z)
  : list drawing :=
  surface ++
  [DrawRect LIGHTGRAY (border_size, border_size, cellsize, cellsize) 0;
   DrawRect GRAY (border_size + 2, border_size + 2, cellsize - 4, cellsize - 4) 2;
   DrawPolygon RED [(11, 8); (11, 25); (23, 16)];
   DisplayUpdate].

(** The size [init] passes to [pygame.display.set_mode]: the pair
    (window_height, window_width), which pygame reads as the window's
    width and height in pixels. *)
Definition init_window (dim_x dim_y : Z) : Z * Z :=
  let cellsize := 30 in
  let border_size := BORDER in
  let window_width := (dim_x + 1) * (cellsize + border_size) + border_size in
  let window_height := dim_y * (cellsize + border_size) + border_size in
  (window_height, window_width).

(** A pixel lies in a rectangle (left, top, width, height). *)
Definition inside (pos : Z * Z) (r : Z * Z * Z * Z) : Prop :=
  let '(x0, y0, w, hgt) := r in
  (x0 ≤ fst pos < x0 + w) ∧ (y0 ≤ snd pos < y0 + hgt).

(** ** Conditions on games and events used by the safety results *)

(** The pointer of a click has non-negative coordinates that fit a C
    int, as the positions pygame reports have.  In that range, and for
    a pitch in that range, the float division [int(a / b)] of
    [pos_to_square] is exact and so is the integer division of the
    model. *)
Definition pointer_ok (e : event) : Prop :=
  match e with
  | MOUSEBUTTONDOWN _ pos =>
      (0 ≤ fst pos < 2147483648) ∧ (0 ≤ snd pos < 2147483648)
  | _ => True
  end.

(** The board of the game is a rectangular [dimx] by [dimy] array. *)
Definition shaped (dimx dimy : Z) (g : game) : Prop :=
  ∃ b, store g !! mainBoard g = Some b ∧ rect b ∧ np_shape b = (dimx, dimy).

(** Control is in a loop, on a board of the right shape, or the
    program has ended normally. *)
Definition safe (dimx dimy : Z) (c : control) : Prop :=
  match c with
  | InPaused g | InPlay g => shaped dimx dimy g
  | Exited => True
  | Crashed => False
  end.

(** Control, if it is in a loop, is on a board of the given shape. *)
Definition keeps (dimx dimy : Z) (c : control) : Prop :=
  match c with
  | InPaused g | InPlay g => shaped dimx dimy g
  | Exited | Crashed => True
  end.

(** ** The call stack

    [paused] calls [play] and [play] calls [paused]; neither returns
    before QUIT, so every change of mode adds a frame to the Python
    stack, and the call that would exceed the interpreter's recursion
    limit raises RecursionError, which nothing catches.  [run] above
    leaves the stack out; [run_stack] keeps the number of changes of
    mode made so far beside the control state.  [limit] is the number
    of changes of mode there is room for: [sys.getrecursionlimit()]
    less the frames below the first activation of [paused] and the
    frames that the functions called from inside a loop need. *)

(** The call of the other loop, [depth] changes of mode having been
    made. *)
Definition enter (limit depth : nat) (c : control) : control * nat :=
  if decide (depth < limit)%nat then (c, S depth) else (Crashed, depth).

Section Stack.
Variables cellsize border_size dimx dimy : Z.
Variable limit : nat.

Definition step_stack (cd : control * nat) (es : list event) : control * nat :=
  match cd with
  | (InPaused g, depth) =>
      match paused_events cellsize border_size dimx dimy es g with
      | InPlay g' => enter limit depth (InPlay g')
      | c' => (c', depth)
      end
  | (InPlay g, depth) =>
      match play_pass cellsize border_size dimx dimy es g with
      | InPaused g' => enter limit depth (InPaused g')
      | c' => (c', depth)
      end
  | (c, depth) => (c, depth)
  end.

Definition run_stack (cd : control * nat) (batches : list (list event))
  : control * nat :=
  foldl step_stack cd batches.

End Stack.

(** A batch holds a click made with the left button. *)
Definition has_click (es : list event) : bool :=
  existsb (λ e, match e with MOUSEBUTTONDOWN true _ => true | _ => false end) es.

(** The number of batches that hold such a click. *)
Fixpoint click_batches (batches : list (list event)) : nat :=
  match batches with
  | [] => 0
  | es :: batches' => ((if has_click es then 1 else 0) + click_batches batches')%nat
  end.

(** Three batches used to instantiate the safety result: a click far
    outside the board, a click on the control square, two ticks. *)
Definition demo_batches : list (list event) :=
  [[MOUSEBUTTONDOWN true (5000, 5000); OTHER]; [MOUSEBUTTONDOWN true (0, 0)];
   [TICK; TICK]].

(** The TICK events of a batch, in order. *)
Fixpoint ticks_of (es : list event) : list event :=
  match es with
  | [] => []
  | TICK :: es' => TICK :: ticks_of es'
  | _ :: es' => ticks_of es'
  end.

(** ** Arrays: indices, reads and writes *)

Section Arrays.
Implicit Types (a b o : ndarray) (i j r c v : Z).

Lemma np_index_lt n i k : np_index n i = Some k → (k < n)%nat.
Proof. unfold np_index. repeat case_decide; intros; simplify_eq; lia. Qed.

Lemma np_index_nonneg n i :
  0 ≤ i < Z.of_nat n → np_index n i = Some (Z.to_nat i).
Proof. intros. unfold np_index. by rewrite decide_True. Qed.

(** What the program relies on at the low edge: index [-1] is the
    last one; together with the explicit reset at the high edge, an
    index in [-1..n] lands on its residue modulo [n]. *)
Lemma np_index_torus n i :
  (0 < n)%nat → -1 ≤ i < Z.of_nat n →
  np_index n i = Some (Z.to_nat (i `mod` Z.of_nat n)).
Proof.
  intros Hn Hi. unfold np_index. destruct (decide (0 ≤ i < Z.of_nat n)) as [Hin|Hout].
  - by rewrite Z.mod_small.
  - assert (i = -1) as -> by lia. rewrite decide_True by lia.
    f_equal. f_equal.
    rewrite <- (Z.mod_small (-1 + Z.of_nat n) (Z.of_nat n)) by lia.
    rewrite <- (Z.mod_add (-1) 1 (Z.of_nat n)) by lia. f_equal. lia.
Qed.

Lemma rect_row a k row :
  rect a → a !! k = Some row → length row = length (hd [] a).
Proof. intros Ha Hk. by apply (Forall_lookup_1 _ _ _ _ Ha Hk). Qed.

Lemma nd_get_lookup a i j :
  0 ≤ i → 0 ≤ j →
  nd_get a i j = (row ← a !! Z.to_nat i; row !! Z.to_nat j).
Proof.
  intros Hi Hj. unfold nd_get, np_index.
  destruct (decide (0 ≤ i < Z.of_nat (length a))) as [Hin|Hout].
  - simpl. destruct (a !! Z.to_nat i) as [row|]; simpl; [|done].
    destruct (decide (0 ≤ j < Z.of_nat (length row))); simpl; [done|].
    rewrite decide_False by lia. simpl. symmetry. apply lookup_ge_None_2. lia.
  - rewrite decide_False by lia.
    rewrite (lookup_ge_None_2 a (Z.to_nat i)) by lia. done.
Qed.

Lemma nd_get_in_range a i j :
  rect a → 0 ≤ i < fst (np_shape a) → 0 ≤ j < snd (np_shape a) →
  is_Some (nd_get a i j).
Proof.
  intros Ha Hi Hj. unfold np_shape in *; simpl in *.
  rewrite nd_get_lookup by lia.
  destruct (lookup_lt_is_Some_2 a (Z.to_nat i)) as [row Hrow]; [lia|].
  rewrite Hrow; simpl. apply lookup_lt_is_Some_2.
  rewrite (rect_row a _ row Ha Hrow). lia.
Qed.

Lemma nd_set_in_range a i j v :
  rect a → 0 ≤ i < fst (np_shape a) → 0 ≤ j < snd (np_shape a) →
  is_Some (nd_set a i j v).
Proof.
  intros Ha Hi Hj. unfold np_shape in *; simpl in *.
  unfold nd_set. rewrite np_index_nonneg by lia. simpl.
  destruct (lookup_lt_is_Some_2 a (Z.to_nat i)) as [row Hrow]; [lia|].
  rewrite Hrow; simpl. rewrite np_index_nonneg; [by eexists|].
  rewrite (rect_row a _ row Ha Hrow). lia.
Qed.

Lemma nd_set_inv a i j v a' :
  nd_set a i j v = Some a' →
  ∃ k row l, np_index (length a) i = Some k ∧ a !! k = Some row ∧
             np_index (length row) j = Some l ∧
             a' = <[k := <[l := v]> row]> a.
Proof.
  unfold nd_set. intros H.
  destruct (np_index (length a) i) as [k|] eqn:Hk; simpl in H; [|done].
  destruct (a !! k) as [row|] eqn:Hrow; simpl in H; [|done].
  destruct (np_index (length row) j) as [l|] eqn:Hl; simpl in H; [|done].
  simplify_eq. exists k, row, l. auto.
Qed.

Lemma nd_set_hd a i j v a' :
  nd_set a i j v = Some a' → length (hd [] a') = length (hd [] a).
Proof.
  intros (k & row & l & _ & Hrow & _ & ->)%nd_set_inv.
  destruct a as [|r0 a]; [done|]. destruct k; simpl in *.
  - simplify_eq. by rewrite length_insert.
  - done.
Qed.

Lemma nd_set_shape a i j v a' :
  nd_set a i j v = Some a' → np_shape a' = np_shape a.
Proof.
  intros H. unfold np_shape. rewrite (nd_set_hd _ _ _ _ _ H).
  apply nd_set_inv in H as (k & row & l & _ & _ & _ & ->).
  by rewrite length_insert.
Qed.

Lemma nd_set_rect a i j v a' :
  rect a → nd_set a i j v = Some a' → rect a'.
Proof.
  intros Ha H. unfold rect. rewrite (nd_set_hd _ _ _ _ _ H).
  apply nd_set_inv in H as (k & row & l & _ & Hrow & _ & ->).
  apply Forall_insert; [done|]. rewrite length_insert.
  by apply (rect_row a k).
Qed.

Lemma nd_set_binary a i j v a' :
  binary a → v = 0 ∨ v = 1 → nd_set a i j v = Some a' → binary a'.
Proof.
  intros Ha Hv (k & row & l & _ & Hrow & _ & ->)%nd_set_inv.
  apply Forall_insert; [done|]. apply Forall_insert; [|done].
  by apply (Forall_lookup_1 _ _ _ _ Ha Hrow).
Qed.

(** A write changes the cell written and no other. *)
Lemma nd_get_set a i j v a' i' j' :
  0 ≤ i → 0 ≤ j → 0 ≤ i' → 0 ≤ j' →
  nd_set a i j v = Some a' →
  nd_get a' i' j' = if decide (i' = i ∧ j' = j) then Some v else nd_get a i' j'.
Proof.
  intros Hi Hj Hi' Hj' H.
  apply nd_set_inv in H as (k & row & l & Hk & Hrow & Hl & ->).
  pose proof (np_index_lt _ _ _ Hk) as Hklt.
  pose proof (np_index_lt _ _ _ Hl) as Hllt.
  unfold np_index in Hk, Hl.
  rewrite decide_True in Hk
    by (destruct (decide (0 ≤ i < Z.of_nat (length a))); [done|];
        rewrite decide_False in Hk by lia; done).
  rewrite decide_True in Hl
    by (destruct (decide (0 ≤ j < Z.of_nat (length row))); [done|];
        rewrite decide_False in Hl by lia; done).
  simplify_eq. rewrite !nd_get_lookup by done.
  destruct (decide (Z.to_nat i' = Z.to_nat i)) as [Heq|Hne].
  - rewrite Heq, list_lookup_insert_eq by done. rewrite Hrow. simpl.
    destruct (decide (Z.to_nat j' = Z.to_nat j)) as [Heq'|Hne'].
    + rewrite Heq', list_lookup_insert_eq by done.
      rewrite decide_True by lia. done.
    + rewrite list_lookup_insert_ne by done.
      rewrite decide_False by lia. done.
  - rewrite list_lookup_insert_ne by done.
    rewrite decide_False by lia. done.
Qed.

End Arrays.

(** ** Running computations on the store *)

Section Store.
Context {A B : Type}.

Lemma bind_Some (m : M A) (k : A → M B) h x h' :
  m h = Some (x, h') → (m ≫= k) h = k x h'.
Proof. intros H. unfold mbind, M_bind, bind. by rewrite H. Qed.

Lemma bind_inv (m : M A) (k : A → M B) h y h'' :
  (m ≫= k) h = Some (y, h'') →
  ∃ x h', m h = Some (x, h') ∧ k x h' = Some (y, h'').
Proof.
  unfold mbind, M_bind, bind. destruct (m h) as [[x h']|]; [|done].
  intros. by exists x, h'.
Qed.

Lemma mret_eq (x : A) (h : heap) : (mret x : M A) h = Some (x, h).
Proof. done. Qed.
End Store.

Lemma getitem_Some l i j (h : heap) a v :
  h !! l = Some a → nd_get a i j = Some v → getitem l i j h = Some (v, h).
Proof. intros Hl Hv. unfold getitem. rewrite Hl. simpl. by rewrite Hv. Qed.

Lemma getitem_inv l i j (h : heap) v h' :
  getitem l i j h = Some (v, h') →
  h' = h ∧ ∃ a, h !! l = Some a ∧ nd_get a i j = Some v.
Proof.
  unfold getitem. destruct (h !! l) as [a|]; simpl; [|done].
  destruct (nd_get a i j) as [w|] eqn:Hw; simpl; [|done].
  intros; simplify_eq. eauto.
Qed.

Lemma setitem_Some l i j v (h : heap) a a' :
  h !! l = Some a → nd_set a i j v = Some a' →
  setitem l i j v h = Some (tt, <[l := a']> h).
Proof. intros Hl Hv. unfold setitem. rewrite Hl. simpl. by rewrite Hv. Qed.

Lemma setitem_inv l i j v (h : heap) u h' :
  setitem l i j v h = Some (u, h') →
  ∃ a a', h !! l = Some a ∧ nd_set a i j v = Some a' ∧ h' = <[l := a']> h.
Proof.
  unfold setitem. destruct (h !! l) as [a|]; simpl; [|done].
  destruct (nd_set a i j v) as [a'|] eqn:Ha'; simpl; [|done].
  intros; simplify_eq. eauto.
Qed.

Lemma alloc_eq a (h : heap) :
  alloc a h = Some (fresh (dom h), <[fresh (dom h) := a]> h).
Proof. done. Qed.

Lemma fresh_lookup (h : heap) : h !! fresh (dom h) = None.
Proof. apply not_elem_of_dom, is_fresh. Qed.

(** A loop invariant for [for_each]: [P] is indexed by the elements
    already handled. *)
Lemma for_each_inv {A} (P : list A → heap → Prop) (xs : list A) (body : A → M unit) :
  (∀ pre x post h, xs = pre ++ x :: post → P pre h →
     ∃ h', body x h = Some (tt, h') ∧ P (pre ++ [x]) h') →
  ∀ h, P [] h → ∃ h', for_each xs body h = Some (tt, h') ∧ P xs h'.
Proof.
  intros Hbody.
  assert (∀ post pre h, xs = pre ++ post → P pre h →
            ∃ h', for_each post body h = Some (tt, h') ∧ P xs h') as Hgen.
  { induction post as [|x post IH]; intros pre h Hxs Hpre.
    - exists h. rewrite app_nil_r in Hxs. subst. done.
    - destruct (Hbody pre x post h Hxs Hpre) as (h1 & Hx & H1).
      destruct (IH (pre ++ [x]) h1) as (h2 & Hrest & H2).
      { by rewrite <- app_assoc. }
      { done. }
      exists h2. split; [|done].
      unfold for_each. simpl. rewrite (bind_Some _ _ _ _ _ Hx). exact Hrest. }
  intros h Hh. by apply (Hgen xs [] h).
Qed.

(** ** Counting neighbours *)

Section Neighbours.
Variables (b : ndarray) (board : loc) (h : heap).
Hypothesis Hboard : h !! board = Some b.
Hypothesis Hrect : rect b.

Let width := fst (np_shape b).
Let height := snd (np_shape b).

Lemma alive_bounds r c : 0 ≤ alive b r c ≤ 1.
Proof. unfold alive. destruct (nd_get b r c); [case_decide|]; lia. Qed.

Lemma nd_get_torus r c :
  0 < width → 0 < height → -1 ≤ r < width → -1 ≤ c < height →
  nd_get b r c = nd_get b (r `mod` width) (c `mod` height).
Proof.
  intros Hw Hh Hr Hc. subst width height. unfold np_shape in *; simpl in *.
  assert (0 ≤ r `mod` Z.of_nat (length b) < Z.of_nat (length b))
    by (apply Z.mod_pos_bound; lia).
  assert (0 ≤ c `mod` Z.of_nat (length (hd [] b)) < Z.of_nat (length (hd [] b)))
    by (apply Z.mod_pos_bound; lia).
  rewrite (nd_get_lookup b (r `mod` _)) by lia.
  unfold nd_get. rewrite np_index_torus by lia. simpl.
  destruct (b !! _) as [row|] eqn:Hrow; simpl; [|done].
  rewrite (rect_row b _ row Hrect Hrow).
  rewrite np_index_torus by lia. done.
Qed.

(** The two resets bring a neighbour's coordinates into [-1..n-1]
    without changing their residues. *)
Lemma fold_over_torus i j d :
  0 ≤ i < width → 0 ≤ j < height → -1 ≤ fst d ≤ 1 → -1 ≤ snd d ≤ 1 →
  let n := fold_over width height (i + fst d, j + snd d) in
  nd_get b (fst n) (snd n)
  = nd_get b ((i + fst d) `mod` width) ((j + snd d) `mod` height).
Proof.
  intros Hi Hj Hd1 Hd2. unfold fold_over. simpl.
  destruct (decide (i + fst d = width)) as [Hw|Hw]; simpl;
    destruct (decide (j + snd d = height)) as [Hh|Hh]; simpl;
    rewrite nd_get_torus by lia;
    rewrite ?Hw, ?Hh, ?Z.mod_same, ?Z.mod_0_l by lia; done.
Qed.

Lemma count_body i j d count :
  0 ≤ i < width → 0 ≤ j < height → -1 ≤ fst d ≤ 1 → -1 ≤ snd d ≤ 1 →
  (let neighbour := fold_over width height (i + fst d, j + snd d) in
   v ← getitem board (fst neighbour) (snd neighbour);
   mret (if decide (v = 1) then count + 1 else count)) h
  = Some (count + alive b ((i + fst d) `mod` width) ((j + snd d) `mod` height), h).
Proof.
  intros Hi Hj Hd1 Hd2. simpl.
  pose proof (fold_over_torus i j d Hi Hj Hd1 Hd2) as Hn. simpl in Hn.
  destruct (nd_get_in_range b ((i + fst d) `mod` width) ((j + snd d) `mod` height))
    as [v Hv]; [done|apply Z.mod_pos_bound; lia|apply Z.mod_pos_bound; lia|].
  rewrite (bind_Some _ _ _ v h).
  - rewrite mret_eq. unfold alive. rewrite Hv.
    do 2 f_equal. case_decide; lia.
  - apply (getitem_Some _ _ _ _ b); [done|]. by rewrite Hn.
Qed.

Lemma count_loop i j ds count :
  0 ≤ i < width → 0 ≤ j < height →
  Forall (λ d, (-1 ≤ fst d ≤ 1) ∧ (-1 ≤ snd d ≤ 1)) ds →
  for_fold ((λ d, (i + fst d, j + snd d)) <$> ds)
    (λ neighbour count,
       let neighbour := fold_over width height neighbour in
       v ← getitem board (fst neighbour) (snd neighbour);
       mret (if decide (v = 1) then count + 1 else count))
    count h
  = Some (count + foldr Z.add 0
            ((λ d, alive b ((i + fst d) `mod` width) ((j + snd d) `mod` height)) <$> ds),
          h).
Proof.
  intros Hi Hj Hds. revert count.
  induction Hds as [|d ds [Hd1 Hd2] _ IH]; intros count;
    rewrite ?fmap_cons; cbn [for_fold foldr fmap list_fmap].
  - rewrite mret_eq. do 2 f_equal. lia.
  - rewrite (bind_Some _ _ _ _ _ (count_body i j d count Hi Hj Hd1 Hd2)).
    rewrite IH. do 2 f_equal. lia.
Qed.

Lemma nPos_offsets i j : nPos i j = (λ d, (i + fst d, j + snd d)) <$> offsets.
Proof. unfold nPos, offsets. simpl. repeat f_equal; lia. Qed.

Lemma count_neighbours_torus i j :
  0 ≤ i < width → 0 ≤ j < height →
  count_neighbours board width height i j h = Some (torus_count b i j, h).
Proof.
  intros Hi Hj. unfold count_neighbours. rewrite nPos_offsets.
  rewrite count_loop; [done..|].
  unfold offsets. repeat constructor; simpl; lia.
Qed.

Lemma torus_count_bounds i j : 0 ≤ torus_count b i j ≤ 8.
Proof.
  unfold torus_count, np_shape, offsets. simpl.
  repeat match goal with
         | |- context [alive b ?r ?c] =>
             let H := fresh in
             pose proof (alive_bounds r c) as H;
             generalize dependent (alive b r c); intros
         end.
  lia.
Qed.

End Neighbours.

(** ** The simulation step *)

Lemma seqZ_split_bounds (n : Z) pre x post :
  seqZ 0 n = pre ++ x :: post →
  (0 ≤ x < n) ∧ (x ∉ pre) ∧ (∀ x', x' ∈ pre → 0 ≤ x' < n).
Proof.
  intros Hsplit.
  assert (∀ z, z ∈ pre ++ x :: post → 0 ≤ z < n) as Hin.
  { intros z Hz. rewrite <- Hsplit in Hz. apply elem_of_seqZ in Hz. lia. }
  pose proof (NoDup_seqZ 0 n) as Hnd. rewrite Hsplit in Hnd.
  apply NoDup_app in Hnd as (_ & Hdisj & _).
  split; [|split].
  - apply Hin, elem_of_app. right. apply elem_of_cons. by left.
  - intros Hx. apply (Hdisj x Hx), elem_of_cons. by left.
  - intros x' Hx'. apply Hin, elem_of_app. by left.
Qed.

Section Tick.
Variables (b : ndarray) (board out : loc) (h : heap).
Hypothesis Hboard : h !! board = Some b.
Hypothesis Hrect : rect b.
Hypothesis Hout : h !! out = None.

Let width := fst (np_shape b).
Let height := snd (np_shape b).

(** The value the step stores at [(i, j)], given the old value [y]. *)
Let next (y i j : Z) : Z := fst (rules y (torus_count b i j)).

Lemma board_other o : (<[out := o]> h : heap) !! board = Some b.
Proof. rewrite lookup_insert_ne; [done|]. intros ->. congruence. Qed.

(** The body of the inner loop: it reads [board], writes cell
    [(i, j)] of [out] and nothing else. *)
Lemma tick_body o i j :
  np_shape o = np_shape b → rect o →
  0 ≤ i < width → 0 ≤ j < height →
  ∃ y o',
    nd_get b i j = Some y ∧
    (y ← getitem board i j;
     count ← count_neighbours board width height i j;
     setitem out i j (fst (rules y count));;
     setitem out i j (fst (rules y count))) (<[out := o]> h)
    = Some (tt, <[out := o']> h) ∧
    np_shape o' = np_shape b ∧ rect o' ∧
    ∀ i' j', 0 ≤ i' → 0 ≤ j' →
      nd_get o' i' j'
      = if decide (i' = i ∧ j' = j) then Some (next y i j) else nd_get o i' j'.
Proof.
  intros Hshape Hro Hi Hj.
  destruct (nd_get_in_range b i j Hrect Hi Hj) as [y Hy].
  destruct (nd_set_in_range o i j (next y i j) Hro) as [o1 Ho1];
    [rewrite Hshape; apply Hi|rewrite Hshape; apply Hj|].
  pose proof (nd_set_shape _ _ _ _ _ Ho1) as Hs1.
  pose proof (nd_set_rect _ _ _ _ _ Hro Ho1) as Hr1.
  destruct (nd_set_in_range o1 i j (next y i j) Hr1) as [o2 Ho2];
    [rewrite Hs1, Hshape; apply Hi|rewrite Hs1, Hshape; apply Hj|].
  exists y, o2. split; [done|]. split; [|split_and!].
  - rewrite (bind_Some _ _ _ y (<[out := o]> h))
      by (by apply (getitem_Some _ _ _ _ b); [apply board_other|]).
    rewrite (bind_Some _ _ _ (torus_count b i j) (<[out := o]> h))
      by (by apply count_neighbours_torus; [apply board_other|..]).
    rewrite (bind_Some _ _ _ tt (<[out := o1]> h)).
    + rewrite (setitem_Some _ _ _ _ _ o1 o2);
        [|by rewrite lookup_insert_eq|done].
      by rewrite insert_insert_eq.
    + rewrite (setitem_Some _ _ _ _ _ o o1);
        [|by rewrite lookup_insert_eq|done].
      by rewrite insert_insert_eq.
  - by rewrite (nd_set_shape _ _ _ _ _ Ho2), Hs1.
  - by apply (nd_set_rect o1 i j (next y i j)).
  - intros i' j' Hi' Hj'.
    rewrite (nd_get_set o1 i j (next y i j) o2) by (done || lia).
    case_decide; [done|].
    rewrite (nd_get_set o i j (next y i j) o1) by (done || lia).
    by rewrite decide_False.
Qed.

(** The cells of row [i] in columns [js], and all cells of rows
    [is], hold their next-generation values. *)
Let row_done (o : ndarray) (i : Z) (js : list Z) : Prop :=
  ∀ j, j ∈ js → ∃ y, nd_get b i j = Some y ∧ nd_get o i j = Some (next y i j).
Let rows_done (o : ndarray) (rows : list Z) : Prop :=
  ∀ i j, i ∈ rows → 0 ≤ j < height →
    ∃ y, nd_get b i j = Some y ∧ nd_get o i j = Some (next y i j).

Lemma tick_row o i rows :
  np_shape o = np_shape b → rect o → 0 ≤ i < width →
  i ∉ rows → (∀ i', i' ∈ rows → 0 ≤ i') → rows_done o rows →
  ∃ o',
    for_each (seqZ 0 height) (λ j,
      y ← getitem board i j;
      count ← count_neighbours board width height i j;
      setitem out i j (fst (rules y count));;
      setitem out i j (fst (rules y count))) (<[out := o]> h)
    = Some (tt, <[out := o']> h) ∧
    np_shape o' = np_shape b ∧ rect o' ∧ rows_done o' (rows ++ [i]).
Proof.
  intros Hshape Hro Hi Hni Hrows Hdone.
  pose (P := λ (js : list Z) (h' : heap),
          ∃ o', h' = <[out := o']> h ∧ np_shape o' = np_shape b ∧ rect o' ∧
                rows_done o' rows ∧ row_done o' i js).
  destruct (for_each_inv P (seqZ 0 height)
              (λ j,
                 y ← getitem board i j;
                 count ← count_neighbours board width height i j;
                 setitem out i j (fst (rules y count));;
                 setitem out i j (fst (rules y count)))) with (h := <[out := o]> h)
    as (h' & Hrun & o' & -> & Hs' & Hr' & Hrows' & Hrow').
  - intros pre j post h0 Hsplit (o0 & -> & Hs0 & Hr0 & Hrows0 & Hrow0).
    apply seqZ_split_bounds in Hsplit as (Hj & Hnj & Hpre).
    destruct (tick_body o0 i j Hs0 Hr0 Hi Hj) as (y & o1 & Hy & Hrun & Hs1 & Hr1 & Hget).
    exists (<[out := o1]> h). split; [exact Hrun|].
    exists o1. split_and!; [done..| |].
    + intros i' j' Hi' Hj'. rewrite Hget by (first [lia | by apply Hrows]).
      rewrite decide_False by (intros [-> _]; done). by apply Hrows0.
    + intros j' [Hj'| ->%list_elem_of_singleton]%elem_of_app.
      * rewrite Hget by (first [lia | apply Hpre in Hj'; lia]).
        rewrite decide_False by (intros [_ ->]; done). by apply Hrow0.
      * exists y. split; [done|]. rewrite Hget by lia. by rewrite decide_True.
  - exists o. split_and!; [done..|]. intros j Hj. by apply elem_of_nil in Hj.
  - exists o'. split_and!; [done..|].
    intros i' j Hi'%elem_of_app Hj. destruct Hi' as [Hi'| ->%list_elem_of_singleton].
    + by apply Hrows'.
    + apply Hrow'. apply elem_of_seqZ. lia.
Qed.

Lemma tick_rows o :
  np_shape o = np_shape b → rect o →
  ∃ o',
    for_each (seqZ 0 width) (λ i,
      for_each (seqZ 0 height) (λ j,
        y ← getitem board i j;
        count ← count_neighbours board width height i j;
        setitem out i j (fst (rules y count));;
        setitem out i j (fst (rules y count)))) (<[out := o]> h)
    = Some (tt, <[out := o']> h) ∧
    np_shape o' = np_shape b ∧ rect o' ∧ rows_done o' (seqZ 0 width).
Proof.
  intros Hshape Hro.
  pose (P := λ (rows : list Z) (h' : heap),
          ∃ o', h' = <[out := o']> h ∧ np_shape o' = np_shape b ∧ rect o' ∧
                rows_done o' rows).
  destruct (for_each_inv P (seqZ 0 width)
              (λ i,
                 for_each (seqZ 0 height) (λ j,
                   y ← getitem board i j;
                   count ← count_neighbours board width height i j;
                   setitem out i j (fst (rules y count));;
                   setitem out i j (fst (rules y count))))) with (h := <[out := o]> h)
    as (h' & Hrun & o' & -> & Hs' & Hr' & Hrows').
  - intros pre i post h0 Hsplit (o0 & -> & Hs0 & Hr0 & Hrows0).
    apply seqZ_split_bounds in Hsplit as (Hi & Hni & Hpre).
    destruct (tick_row o0 i pre Hs0 Hr0 Hi Hni) as (o1 & Hrun & Hs1 & Hr1 & Hrows1);
      [intros i' Hi'; apply Hpre in Hi'; lia|done|].
    exists (<[out := o1]> h). split; [exact Hrun|]. by exists o1.
  - exists o. split_and!; [done..|]. intros i j Hi. by apply elem_of_nil in Hi.
  - by exists o'.
Qed.

End Tick.

Lemma tick_spec (h : heap) board b :
  h !! board = Some b → rect b →
  ∃ o, tick board h = Some (fresh (dom h), <[fresh (dom h) := o]> h) ∧
       np_shape o = np_shape b ∧ rect o ∧
       ∀ i j, 0 ≤ i < fst (np_shape b) → 0 ≤ j < snd (np_shape b) →
         ∃ y, nd_get b i j = Some y ∧
              nd_get o i j = Some (fst (rules y (torus_count b i j))).
Proof.
  intros Hboard Hrect.
  destruct (tick_rows b board (fresh (dom h)) h Hboard Hrect (fresh_lookup h) b)
    as (o & Hrun & Hshape & Hro & Hcells); [done..|].
  exists o. split_and!; [|done..|].
  - unfold tick.
    rewrite (bind_Some _ _ _ (np_shape b) h)
      by (unfold shape; by rewrite Hboard).
    unfold np_shape at 1.
    rewrite (bind_Some _ _ _ (fresh (dom h)) (<[fresh (dom h) := b]> h))
      by (unfold np_copy; by rewrite Hboard).
    rewrite (bind_Some _ _ _ tt (<[fresh (dom h) := o]> h)) by exact Hrun.
    done.
  - intros i j Hi Hj. apply Hcells; [|done]. apply elem_of_seqZ. lia.
Qed.

(** ** Binary boards *)

Lemma rules_binary alive count :
  fst (rules alive count) = 0 ∨ fst (rules alive count) = 1.
Proof.
  unfold rules.
  destruct ((alive =? 1) && ((count =? 2) || (count =? 3))); [by right|].
  destruct ((alive =? 0) && (count =? 3)); [by right|by left].
Qed.

Lemma binary_of_cells (o : ndarray) :
  rect o →
  (∀ i j, 0 ≤ i < fst (np_shape o) → 0 ≤ j < snd (np_shape o) →
     ∃ v, nd_get o i j = Some v ∧ (v = 0 ∨ v = 1)) →
  binary o.
Proof.
  intros Hro Hcells. apply Forall_lookup_2. intros k row Hrow.
  apply Forall_lookup_2. intros l v Hv.
  pose proof (lookup_lt_Some _ _ _ Hrow) as Hk.
  pose proof (lookup_lt_Some _ _ _ Hv) as Hl.
  rewrite (rect_row o k row Hro Hrow) in Hl.
  destruct (Hcells (Z.of_nat k) (Z.of_nat l)) as (w & Hw & Hbin);
    [simpl; lia..|].
  rewrite nd_get_lookup, !Nat2Z.id, Hrow in Hw by lia. simpl in Hw.
  congruence.
Qed.

Lemma zeros_rect (n m : nat) : rect (replicate n (replicate m 0)).
Proof.
  unfold rect. destruct n as [|n]; [constructor|].
  by apply Forall_replicate.
Qed.

Lemma zeros_binary (n m : nat) : binary (replicate n (replicate m 0)).
Proof. apply Forall_replicate, Forall_replicate. by left. Qed.

Lemma createBoard_inv width height (h : heap) l h' :
  createBoard width height h = Some (l, h') →
  h !! l = None ∧
  h' = <[l := replicate (Z.to_nat width) (replicate (Z.to_nat height) 0)]> h.
Proof.
  unfold createBoard, np_zeros. case_decide; [|done].
  rewrite alloc_eq. intros; simplify_eq. split; [apply fresh_lookup|done].
Qed.

(** A second write of the old value at the same place undoes a write. *)
Lemma nd_set_undo (a : ndarray) i j v y a' :
  nd_get a i j = Some y → nd_set a i j v = Some a' → nd_set a' i j y = Some a.
Proof.
  intros Hy Hset.
  apply nd_set_inv in Hset as (k & row & l & Hk & Hrow & Hl & ->).
  unfold nd_get in Hy. rewrite Hk in Hy. simpl in Hy.
  rewrite Hrow in Hy. simpl in Hy. rewrite Hl in Hy. simpl in Hy.
  pose proof (np_index_lt _ _ _ Hk) as Hklt.
  unfold nd_set. rewrite length_insert, Hk. simpl.
  rewrite list_lookup_insert_eq by done. simpl.
  rewrite length_insert, Hl. simpl.
  rewrite !list_insert_insert_eq.
  rewrite (list_insert_id row l y) by done.
  by rewrite list_insert_id.
Qed.

(** ** Editing a square *)

Lemma change_square_Some (h : heap) board square b y b1 :
  h !! board = Some b →
  nd_get b (snd square) (fst square) = Some y →
  nd_set b (snd square) (fst square) (if decide (y = 0) then 1 else 0) = Some b1 →
  change_square board square h = Some (board, <[board := b1]> h).
Proof.
  intros Hb Hy Hset. unfold change_square.
  rewrite (bind_Some _ _ _ y h) by (by apply (getitem_Some _ _ _ _ b)).
  rewrite (bind_Some _ _ _ tt (<[board := b1]> h)); [done|].
  destruct (decide (y = 0)); by apply (setitem_Some _ _ _ _ _ b).
Qed.

Lemma change_square_inv (h : heap) board square l h' :
  change_square board square h = Some (l, h') →
  l = board ∧
  ∃ b y b1,
    h !! board = Some b ∧
    nd_get b (snd square) (fst square) = Some y ∧
    nd_set b (snd square) (fst square) (if decide (y = 0) then 1 else 0) = Some b1 ∧
    h' = <[board := b1]> h.
Proof.
  unfold change_square.
  intros (y & h1 & Hget & Hrest)%bind_inv.
  apply getitem_inv in Hget as (-> & b & Hb & Hy).
  apply bind_inv in Hrest as ([] & h2 & Hset & Hret).
  rewrite mret_eq in Hret. simplify_eq. split; [done|].
  destruct (decide (y = 0)) as [Hy0|Hy0];
    apply setitem_inv in Hset as (b' & b1 & Hb' & Hset & ->);
    assert (b' = b) as -> by congruence;
    exists b, y, b1; rewrite ?decide_True, ?decide_False by done; done.
Qed.

(** ** Well-formed games *)

Lemma change_square_good g square l h' :
  good g → change_square (mainBoard g) square (store g) = Some (l, h') →
  good (Game h' l (timer g)).
Proof.
  intros (b & Hb & Hrect & Hbin) (-> & b' & y & b1 & Hb' & _ & Hset & ->)%change_square_inv.
  assert (b' = b) as -> by congruence.
  exists b1. simpl. rewrite lookup_insert_eq. split_and!; [done|..].
  - by apply (nd_set_rect b _ _ _ _ Hrect Hset).
  - apply (nd_set_binary b _ _ _ _ Hbin) in Hset; [done|]. case_decide; auto.
Qed.

Lemma tick_binary (h : heap) board b l h' :
  h !! board = Some b → rect b → tick board h = Some (l, h') →
  ∃ o, h' !! l = Some o ∧ rect o ∧ binary o.
Proof.
  intros Hb Hrect Htick.
  destruct (tick_spec h board b Hb Hrect) as (o & Hrun & Hshape & Hro & Hcells).
  rewrite Hrun in Htick. injection Htick as <- <-. exists o.
  rewrite lookup_insert_eq. split_and!; [done..|].
  apply binary_of_cells; [done|]. rewrite Hshape. intros i j Hi Hj.
  destruct (Hcells i j Hi Hj) as (y & _ & Ho).
  eexists. split; [exact Ho|]. apply rules_binary.
Qed.

Lemma copy_tick_good g l h' t :
  good g → (c ← np_copy (mainBoard g); tick c) (store g) = Some (l, h') →
  good (Game h' l t).
Proof.
  intros (b & Hb & Hrect & _) (c & h1 & Hcopy & Htick)%bind_inv.
  unfold np_copy in Hcopy. rewrite Hb, alloc_eq in Hcopy. simplify_eq.
  apply (tick_binary _ _ b) in Htick; [done| by rewrite lookup_insert_eq|done].
Qed.

Section LoopsInvariant.
Variables cellsize border_size dimx dimy : Z.

Lemma paused_events_invariant es g :
  good g → invariant (paused_events cellsize border_size dimx dimy es g).
Proof.
  revert g. induction es as [|e es IH]; intros g Hg; [done|].
  destruct e as [|[] pos| |]; cbn [paused_events]; [done| |by apply IH..].
  destruct (pos_to_square _ _ _ _ _) as [[square []]|]; [|  |done].
  - destruct Hg as (b & Hb & Hrect & Hbin). by exists b.
  - case_decide; [by apply IH|].
    destruct (change_square _ _ _) as [[l h']|] eqn:Hch; [|done].
    apply IH. by apply (change_square_good g square).
Qed.

Lemma play_events_invariant es pause g pause' g' :
  good g →
  play_events cellsize border_size dimx dimy es pause g = Some (Some (pause', g')) →
  good g'.
Proof.
  revert pause g. induction es as [|e es IH]; intros pause g Hg.
  - simpl. intros; by simplify_eq.
  - destruct e as [|[] pos| |]; cbn [play_events]; [done| |by apply IH| |by apply IH].
    + destruct (pos_to_square _ _ _ _ _) as [[square p]|]; [by apply IH|done].
    + destruct ((np_copy (mainBoard g) ≫= _) (store g)) as [[l h']|] eqn:Htick;
        [|done].
      apply IH. by apply (copy_tick_good g).
Qed.

Lemma step_invariant c es :
  invariant c → invariant (step cellsize border_size dimx dimy c es).
Proof.
  destruct c as [g|g| |]; cbn [step invariant]; [| |done..].
  - apply paused_events_invariant.
  - intros Hg. unfold play_pass.
    destruct (play_events _ _ _ _ _ _ _) as [[[p g']|]|] eqn:Hplay; [|done..].
    apply (play_events_invariant _ _ _ _ _ Hg) in Hplay. by destruct p.
Qed.

Lemma run_invariant c batches :
  invariant c → invariant (run cellsize border_size dimx dimy c batches).
Proof.
  revert c. induction batches as [|es batches IH]; intros c Hc; [done|].
  apply IH. by apply step_invariant.
Qed.

End LoopsInvariant.

(** * The claims *)

Lemma blinker_rect : rect blinker.
Proof. repeat constructor. Qed.

Lemma blinker_binary : binary blinker.
Proof. repeat first [apply Forall_nil_2 | apply Forall_cons_2 | by left | by right]. Qed.

(** C1. The rule table: with 1 for Alive and 0 for Dead, a live cell
    stays alive exactly at counts 2 and 3, a dead cell becomes alive
    exactly at count 3, every result is 0 or 1, and the two rows of
    the table over the counts 0..8 are as listed. *)
Theorem rules_table :
  (∀ count, fst (rules 1 count) = 1 ↔ count = 2 ∨ count = 3) ∧
  (∀ count, fst (rules 0 count) = 1 ↔ count = 3) ∧
  (∀ alive count, fst (rules alive count) = 0 ∨ fst (rules alive count) = 1) ∧
  (λ count, fst (rules 1 count)) <$> seqZ 0 9 = [0; 0; 1; 1; 0; 0; 0; 0; 0] ∧
  (λ count, fst (rules 0 count)) <$> seqZ 0 9 = [0; 0; 0; 1; 0; 0; 0; 0; 0].
Proof.
  split_and!; [| |apply rules_binary|done..].
  - intros count. unfold rules. simpl.
    destruct (Z.eqb_spec count 2), (Z.eqb_spec count 3); simpl; split;
      intros; (done || lia).
  - intros count. unfold rules. simpl.
    destruct (Z.eqb_spec count 3); simpl; split; intros; (done || lia).
Qed.

(** The rule as the specification words it, for any state and any
    count. *)
Lemma rules_alive_iff (y n : Z) :
  fst (rules y n) = 1 ↔ (y = 1 ∧ (n = 2 ∨ n = 3)) ∨ (y = 0 ∧ n = 3).
Proof.
  unfold rules.
  destruct (Z.eqb_spec y 1), (Z.eqb_spec y 0), (Z.eqb_spec n 2), (Z.eqb_spec n 3);
    simpl; split; intros; (done || lia).
Qed.

(** C2. On a rectangular board, [tick] returns a newly allocated array
    of the same shape.  Its cell [(i, j)] is the rule applied to the
    input's cell [(i, j)] and to the number of live cells among the
    eight neighbours of [(i, j)] on the torus of the input board, which
    is what the neighbour loop computes on the store as it was before
    the call: the cell is 1 exactly when the input cell is 1 and that
    number is 2 or 3, or the input cell is 0 and that number is 3, and
    it is 0 otherwise. *)
Theorem tick_next_generation (h : heap) (board : loc) (b : ndarray) :
  h !! board = Some b → rect b →
  ∃ out o h',
    tick board h = Some (out, h') ∧
    h !! out = None ∧ h' !! out = Some o ∧
    np_shape o = np_shape b ∧
    ∀ i j, 0 ≤ i < fst (np_shape b) → 0 ≤ j < snd (np_shape b) →
      ∃ y,
        nd_get b i j = Some y ∧
        count_neighbours board (fst (np_shape b)) (snd (np_shape b)) i j h
          = Some (torus_count b i j, h) ∧
        nd_get o i j = Some (fst (rules y (torus_count b i j))) ∧
        (nd_get o i j = Some 1 ↔
           (y = 1 ∧ (torus_count b i j = 2 ∨ torus_count b i j = 3)) ∨
           (y = 0 ∧ torus_count b i j = 3)) ∧
        (nd_get o i j = Some 0 ∨ nd_get o i j = Some 1).
Proof.
  intros Hb Hrect.
  destruct (tick_spec h board b Hb Hrect) as (o & Hrun & Hshape & _ & Hcells).
  exists (fresh (dom h)), o, (<[fresh (dom h) := o]> h).
  split_and!; [done|apply fresh_lookup|by rewrite lookup_insert_eq|done|].
  intros i j Hi Hj. destruct (Hcells i j Hi Hj) as (y & Hy & Ho).
  exists y. split; [done|]. split; [by apply count_neighbours_torus|].
  split; [done|]. rewrite Ho. split.
  - rewrite <- rules_alive_iff. split; intros; congruence.
  - destruct (rules_binary y (torus_count b i j)) as [-> | ->]; auto.
Qed.

Lemma tick_next_generation_witness :
  ({[0%nat := blinker]} : heap) !! 0%nat = Some blinker ∧ rect blinker ∧
  ∃ out o h',
    tick 0%nat {[0%nat := blinker]} = Some (out, h') ∧
    ({[0%nat := blinker]} : heap) !! out = None ∧ h' !! out = Some o ∧
    np_shape o = np_shape blinker ∧
    ∀ i j, 0 ≤ i < fst (np_shape blinker) → 0 ≤ j < snd (np_shape blinker) →
      ∃ y,
        nd_get blinker i j = Some y ∧
        count_neighbours 0%nat (fst (np_shape blinker)) (snd (np_shape blinker)) i j
          {[0%nat := blinker]} = Some (torus_count blinker i j, {[0%nat := blinker]}) ∧
        nd_get o i j = Some (fst (rules y (torus_count blinker i j))) ∧
        (nd_get o i j = Some 1 ↔
           (y = 1 ∧ (torus_count blinker i j = 2 ∨ torus_count blinker i j = 3)) ∨
           (y = 0 ∧ torus_count blinker i j = 3)) ∧
        (nd_get o i j = Some 0 ∨ nd_get o i j = Some 1).
Proof.
  split; [reflexivity|]. split; [exact blinker_rect|].
  apply (tick_next_generation {[0%nat := blinker]} 0%nat blinker);
    [reflexivity|exact blinker_rect].
Defined.

(** On a board five by five, a horizontal blinker in the middle row
    becomes a vertical one: the generation is computed by [tick] and
    read back from the store. *)
Example tick_turns_blinker :
  (let h := {[0%nat := [[0; 0; 0; 0; 0]; [0; 0; 0; 0; 0]; [0; 1; 1; 1; 0];
                        [0; 0; 0; 0; 0]; [0; 0; 0; 0; 0]]]} : heap in
   '(out, h') ← tick 0%nat h; h' !! out)
  = Some [[0; 0; 0; 0; 0]; [0; 0; 1; 0; 0]; [0; 0; 1; 0; 0];
          [0; 0; 1; 0; 0]; [0; 0; 0; 0; 0]].
Proof. reflexivity. Qed.

(** C3. For a cell of a rectangular board, the count computed by the
    neighbour loop is the number of live cells among the eight
    positions whose coordinates are taken modulo the board's
    dimensions, and it lies between 0 and 8; the loop leaves the store
    as it was. *)
Theorem count_neighbours_toroidal (h : heap) (board : loc) (b : ndarray) (i j : Z) :
  h !! board = Some b → rect b →
  0 ≤ i < fst (np_shape b) → 0 ≤ j < snd (np_shape b) →
  ∃ count,
    count_neighbours board (fst (np_shape b)) (snd (np_shape b)) i j h
      = Some (count, h) ∧
    count = torus_count b i j ∧ 0 ≤ count ≤ 8.
Proof.
  intros Hb Hrect Hi Hj. exists (torus_count b i j). split_and!.
  - by apply count_neighbours_torus.
  - done.
  - apply torus_count_bounds.
  - apply torus_count_bounds.
Qed.

Lemma count_neighbours_toroidal_witness :
  ({[0%nat := blinker]} : heap) !! 0%nat = Some blinker ∧ rect blinker ∧
  0 ≤ 0 < fst (np_shape blinker) ∧ 0 ≤ 0 < snd (np_shape blinker) ∧
  ∃ count,
    count_neighbours 0%nat (fst (np_shape blinker)) (snd (np_shape blinker)) 0 0
      {[0%nat := blinker]} = Some (count, {[0%nat := blinker]}) ∧
    count = torus_count blinker 0 0 ∧ 0 ≤ count ≤ 8.
Proof.
  split; [reflexivity|]. split; [exact blinker_rect|].
  split; [simpl; lia|]. split; [simpl; lia|].
  apply (count_neighbours_toroidal {[0%nat := blinker]} 0%nat blinker 0 0);
    [reflexivity|exact blinker_rect|simpl; lia|simpl; lia].
Defined.

(** The corner cell of a board with one live cell in the opposite
    corner sees that cell across both edges. *)
Example corner_sees_opposite_corner :
  fst <$> count_neighbours 0%nat 3 4 0 0
            {[0%nat := [[0; 0; 0; 0]; [0; 0; 0; 0]; [0; 0; 0; 1]]]} = Some 1.
Proof. reflexivity. Qed.

(** C4, as stated, fails: while [play] runs, a click away from the
    control square leaves the game running; and after a click on the
    control square the timer is still armed. *)
Lemma play_click_elsewhere_keeps_running :
  step 30 BORDER VERTICAL_CELLS HORIZONTAL_CELLS (InPlay running_game)
    [MOUSEBUTTONDOWN true (100, 100)] = InPlay running_game ∧
  step 30 BORDER VERTICAL_CELLS HORIZONTAL_CELLS (InPlay running_game)
    [MOUSEBUTTONDOWN true (10, 10)] = InPaused running_game ∧
  timer running_game = Some TICK_SPEED.
Proof. split_and!; reflexivity. Qed.

Lemma play_clicks_keep_flag cellsize border_size dimx dimy ps pause g :
  cellsize + border_size ≠ 0 →
  play_events cellsize border_size dimx dimy (MOUSEBUTTONDOWN true <$> ps) pause g
  = Some (Some (match last ps with
                | Some pos =>
                    match pos_to_square pos cellsize border_size dimx dimy with
                    | Some (_, p) => p
                    | None => false
                    end
                | None => pause
                end, g)).
Proof.
  intros Hpitch. revert pause.
  induction ps as [|pos ps IH]; intros pause; [done|].
  rewrite fmap_cons. cbn [play_events].
  destruct (pos_to_square pos cellsize border_size dimx dimy)
    as [[square p]|] eqn:Hpos.
  - rewrite IH. destruct ps as [|pos2 ps]; [simpl; by rewrite Hpos|].
    rewrite last_cons_cons.
    destruct (last (pos2 :: ps)) eqn:Hlast; [done|]. by apply last_None in Hlast.
  - unfold pos_to_square in Hpos. by rewrite decide_False in Hpos.
Qed.

(** C4, amended.  While [play] runs, a batch of left-button clicks
    ends in [paused] exactly when the last click of the batch is
    mapped to the control square; otherwise [play] goes on.  Either
    way the store, the board and the timer are what they were: no cell
    is toggled and the timer stays armed.  A TICK that arrives while
    [paused] runs is ignored. *)
Theorem play_click_pauses_on_control_only
    (cellsize border_size dimx dimy : Z) (ps : list (Z * Z)) (pos : Z * Z) (g : game) :
  step cellsize border_size dimx dimy (InPlay g)
    (MOUSEBUTTONDOWN true <$> (ps ++ [pos]))
  = match pos_to_square pos cellsize border_size dimx dimy with
    | None => Crashed
    | Some (_, pause) => if pause then InPaused g else InPlay g
    end
  ∧ step cellsize border_size dimx dimy (InPaused g) [TICK] = InPaused g.
Proof.
  split; [|done]. cbn [step]. unfold play_pass.
  destruct (decide (cellsize + border_size = 0)) as [Hz|Hnz].
  - assert (∀ p, pos_to_square p cellsize border_size dimx dimy = None) as Hnone.
    { intros p. unfold pos_to_square. by rewrite decide_True. }
    rewrite Hnone. destruct ps as [|p ps]; simpl; by rewrite Hnone.
  - rewrite play_clicks_keep_flag, last_snoc by done.
    destruct (pos_to_square pos cellsize border_size dimx dimy)
      as [[square p]|] eqn:Hpos.
    + by destruct p.
    + unfold pos_to_square in Hpos. by rewrite decide_False in Hpos.
Qed.

(** C5, as stated, fails: with the program's constants the pointer
    (32, 32) is mapped to the playable square (1, 0), not to the
    control square. *)
Lemma pointer_32_32_is_not_control :
  pos_to_square (32, 32) 30 BORDER VERTICAL_CELLS HORIZONTAL_CELLS
  = Some ((1, 0), false).
Proof. reflexivity. Qed.

(** C5, amended.  With [cellsize = 30] and [border_size = 2] on a
    board of at least three cells each way, the pointer (32, 32) is
    mapped to the playable square (1, 0) and the pointer (64, 64) to
    the playable square (2, 1); a pointer with non-negative
    coordinates hits the control square exactly when both coordinates
    are below 32. *)
Theorem pos_to_square_examples (dim_x dim_y : Z) :
  3 ≤ dim_x → 3 ≤ dim_y →
  pos_to_square (32, 32) 30 2 dim_x dim_y = Some ((1, 0), false) ∧
  pos_to_square (64, 64) 30 2 dim_x dim_y = Some ((2, 1), false) ∧
  ∀ px py, 0 ≤ px → 0 ≤ py →
    (snd <$> pos_to_square (px, py) 30 2 dim_x dim_y = Some true
     ↔ px < 32 ∧ py < 32).
Proof.
  intros Hx Hy.
  assert (32 ÷ (30 + 2) = 1) as H32 by reflexivity.
  assert (64 ÷ (30 + 2) = 2) as H64 by reflexivity.
  split_and!.
  - unfold pos_to_square. cbn [fst snd]. rewrite H32.
    rewrite !decide_False by lia. done.
  - unfold pos_to_square. cbn [fst snd]. rewrite H64.
    rewrite !decide_False by lia. done.
  - intros px py Hpx Hpy. unfold pos_to_square. cbn [fst snd].
    change (30 + 2) with 32.
    pose proof (Z.quot_div_nonneg px 32 Hpx ltac:(lia)) as Hqx.
    pose proof (Z.quot_div_nonneg py 32 Hpy ltac:(lia)) as Hqy.
    rewrite Hqx, Hqy. rewrite decide_False by lia. cbn [fmap option_fmap option_map snd].
    pose proof (Z.div_small_iff px 32 ltac:(lia)) as Hsx.
    pose proof (Z.div_small_iff py 32 ltac:(lia)) as Hsy.
    split.
    + intros Hp. injection Hp as Hp. apply bool_decide_eq_true in Hp.
      repeat case_decide; lia.
    + intros [Hlx Hly]. do 2 f_equal. apply bool_decide_eq_true.
      repeat case_decide; lia.
Qed.

Lemma pos_to_square_examples_witness :
  3 ≤ VERTICAL_CELLS ∧ 3 ≤ HORIZONTAL_CELLS ∧
  pos_to_square (32, 32) 30 2 VERTICAL_CELLS HORIZONTAL_CELLS = Some ((1, 0), false) ∧
  pos_to_square (64, 64) 30 2 VERTICAL_CELLS HORIZONTAL_CELLS = Some ((2, 1), false) ∧
  ∀ px py, 0 ≤ px → 0 ≤ py →
    (snd <$> pos_to_square (px, py) 30 2 VERTICAL_CELLS HORIZONTAL_CELLS = Some true
     ↔ px < 32 ∧ py < 32).
Proof.
  split; [unfold VERTICAL_CELLS; lia|]. split; [unfold HORIZONTAL_CELLS; lia|].
  apply (pos_to_square_examples VERTICAL_CELLS HORIZONTAL_CELLS);
    [unfold VERTICAL_CELLS; lia|unfold HORIZONTAL_CELLS; lia].
Defined.

(** C6. [tick] leaves its input as it was: the array it returns is a
    new object, and every object the store held before the call,
    the input board among them, is unchanged after it. *)
Theorem tick_input_unchanged (h : heap) (board : loc) (b : ndarray) :
  h !! board = Some b → rect b →
  ∃ out h',
    tick board h = Some (out, h') ∧
    h !! out = None ∧ out ≠ board ∧
    h' !! board = Some b ∧
    ∀ l, l ≠ out → h' !! l = h !! l.
Proof.
  intros Hb Hrect.
  destruct (tick_spec h board b Hb Hrect) as (o & Hrun & _).
  pose proof (fresh_lookup h) as Hfresh.
  assert (fresh (dom h) ≠ board) as Hne by (intros Heq; congruence).
  exists (fresh (dom h)), (<[fresh (dom h) := o]> h).
  split_and!; [done..| |].
  - by rewrite lookup_insert_ne.
  - intros l Hl. by rewrite lookup_insert_ne.
Qed.

Lemma tick_input_unchanged_witness :
  ({[0%nat := blinker]} : heap) !! 0%nat = Some blinker ∧ rect blinker ∧
  ∃ out h',
    tick 0%nat {[0%nat := blinker]} = Some (out, h') ∧
    ({[0%nat := blinker]} : heap) !! out = None ∧ out ≠ 0%nat ∧
    h' !! 0%nat = Some blinker ∧
    ∀ l, l ≠ out → h' !! l = ({[0%nat := blinker]} : heap) !! l.
Proof.
  split; [reflexivity|]. split; [exact blinker_rect|].
  apply (tick_input_unchanged {[0%nat := blinker]} 0%nat blinker);
    [reflexivity|exact blinker_rect].
Defined.

(** C7. For a pointer with non-negative coordinates, a positive cell
    pitch and a board of at least one cell each way, the mapper does
    not fail and clamps: the first component of the square is the
    pointer's column of the pitch grid, [floor (x / pitch)], or the
    last index [dim_y - 1] when the pointer lies beyond it, and the
    second component is one less than the pointer's row of the pitch
    grid, [floor (y / pitch)], that row being replaced by [dim_x - 1]
    when the pointer lies beyond it; the pause flag is set exactly for
    the square (0, -1).  Hence the first component lies in
    [0, dim_y - 1] and the second in [-1, dim_x - 2], and unless the
    second component is -1, editing that square of a [dim_x] by
    [dim_y] board succeeds.  The division of the source, [int(a / b)]
    on floats, is taken as exact, as it is for pixel coordinates. *)
Theorem pos_to_square_clamps (pos : Z * Z) (cellsize border_size dim_x dim_y : Z) :
  0 ≤ fst pos → 0 ≤ snd pos → 0 < cellsize + border_size →
  1 ≤ dim_x → 1 ≤ dim_y →
  ∃ square pause,
    pos_to_square pos cellsize border_size dim_x dim_y = Some (square, pause) ∧
    fst square = Z.min (fst pos `div` (cellsize + border_size)) (dim_y - 1) ∧
    snd square = Z.min (snd pos `div` (cellsize + border_size)) (dim_x - 1) - 1 ∧
    (pause = true ↔ fst square = 0 ∧ snd square = -1) ∧
    0 ≤ fst square ≤ dim_y - 1 ∧
    -1 ≤ snd square ≤ dim_x - 2 ∧
    (snd square ≠ -1 →
     ∀ (h : heap) board b,
       h !! board = Some b → rect b → np_shape b = (dim_x, dim_y) →
       is_Some (nd_get b (snd square) (fst square)) ∧
       is_Some (change_square board square h)).
Proof.
  intros Hpx Hpy Hpitch Hdx Hdy. unfold pos_to_square.
  rewrite decide_False by lia. eexists _, _. split; [done|]. cbn [fst snd].
  rewrite !Z.quot_div_nonneg by lia.
  pose proof (Z.div_pos (fst pos) (cellsize + border_size) Hpx Hpitch) as Hqx.
  pose proof (Z.div_pos (snd pos) (cellsize + border_size) Hpy Hpitch) as Hqy.
  split; [destruct (decide (dim_y ≤ _)); lia|].
  split; [destruct (decide (dim_x ≤ _)); lia|].
  split.
  { rewrite bool_decide_eq_true.
    destruct (decide (dim_y ≤ _)), (decide (dim_x ≤ _)); lia. }
  split; [destruct (decide (dim_y ≤ _)); lia|].
  split; [destruct (decide (dim_x ≤ _)); lia|].
  intros Hdead h board b Hb Hrect Hshape.
  assert (0 ≤ (if decide (dim_x ≤ snd pos `div` (cellsize + border_size))
               then dim_x - 1 else snd pos `div` (cellsize + border_size)) - 1
          < fst (np_shape b)) as Hrow
    by (rewrite Hshape; cbn [fst snd] in *; destruct (decide (dim_x ≤ _)); lia).
  assert (0 ≤ (if decide (dim_y ≤ fst pos `div` (cellsize + border_size))
               then dim_y - 1 else fst pos `div` (cellsize + border_size))
          < snd (np_shape b)) as Hcol
    by (rewrite Hshape; cbn [fst snd] in *; destruct (decide (dim_y ≤ _)); lia).
  destruct (nd_get_in_range b _ _ Hrect Hrow Hcol) as [y Hy].
  split; [by exists y|].
  destruct (nd_set_in_range b _ _ (if decide (y = 0) then 1 else 0) Hrect Hrow Hcol)
    as [b1 Hb1].
  eexists. by apply (change_square_Some h board _ b y b1).
Qed.

Lemma pos_to_square_clamps_witness :
  0 ≤ fst (5000, 5000) ∧ 0 ≤ snd (5000, 5000) ∧ 0 < 30 + BORDER ∧
  1 ≤ VERTICAL_CELLS ∧ 1 ≤ HORIZONTAL_CELLS ∧
  ∃ square pause,
    pos_to_square (5000, 5000) 30 BORDER VERTICAL_CELLS HORIZONTAL_CELLS
      = Some (square, pause) ∧
    fst square = Z.min (fst (5000, 5000) `div` (30 + BORDER)) (HORIZONTAL_CELLS - 1) ∧
    snd square = Z.min (snd (5000, 5000) `div` (30 + BORDER)) (VERTICAL_CELLS - 1) - 1 ∧
    (pause = true ↔ fst square = 0 ∧ snd square = -1) ∧
    0 ≤ fst square ≤ HORIZONTAL_CELLS - 1 ∧
    -1 ≤ snd square ≤ VERTICAL_CELLS - 2 ∧
    (snd square ≠ -1 →
     ∀ (h : heap) board b,
       h !! board = Some b → rect b →
       np_shape b = (VERTICAL_CELLS, HORIZONTAL_CELLS) →
       is_Some (nd_get b (snd square) (fst square)) ∧
       is_Some (change_square board square h)).
Proof.
  split; [simpl; lia|]. split; [simpl; lia|]. split; [reflexivity|].
  split; [unfold VERTICAL_CELLS; lia|]. split; [unfold HORIZONTAL_CELLS; lia|].
  apply (pos_to_square_clamps (5000, 5000) 30 BORDER VERTICAL_CELLS HORIZONTAL_CELLS);
    [simpl; lia|simpl; lia|reflexivity|unfold VERTICAL_CELLS; lia
    |unfold HORIZONTAL_CELLS; lia].
Defined.

(** A pointer far beyond both edges of the default board goes to the
    last column and, the row being offset by one, to the last row but
    one; a pointer inside the board goes to its own cell. *)
Example far_pointer_goes_to_last_index :
  pos_to_square (5000, 5000) 30 BORDER VERTICAL_CELLS HORIZONTAL_CELLS
    = Some ((29, 18), false) ∧
  pos_to_square (100, 70) 30 BORDER VERTICAL_CELLS HORIZONTAL_CELLS
    = Some ((3, 1), false).
Proof. split; reflexivity. Qed.

(** C8. While [paused] runs, a click that the mapper sends to a square
    with second component -1 without reporting the control square is
    skipped: the rest of the batch is handled on the same game, and a
    batch made of that click alone leaves the game as it was. *)
Theorem paused_dead_zone_noop
    (cellsize border_size dimx dimy : Z) (pos square : Z * Z)
    (es : list event) (g : game) :
  pos_to_square pos cellsize border_size dimx dimy = Some (square, false) →
  snd square = -1 →
  paused_events cellsize border_size dimx dimy (MOUSEBUTTONDOWN true pos :: es) g
  = paused_events cellsize border_size dimx dimy es g ∧
  step cellsize border_size dimx dimy (InPaused g) [MOUSEBUTTONDOWN true pos]
  = InPaused g.
Proof.
  intros Hpos Hdead. cbn [step paused_events]. rewrite Hpos.
  rewrite !decide_True by done. split; reflexivity.
Qed.

Lemma paused_dead_zone_noop_witness :
  pos_to_square (100, 10) 30 BORDER VERTICAL_CELLS HORIZONTAL_CELLS
    = Some ((3, -1), false) ∧
  snd (3, -1) = -1 ∧
  paused_events 30 BORDER VERTICAL_CELLS HORIZONTAL_CELLS
    (MOUSEBUTTONDOWN true (100, 10) :: [MOUSEBUTTONDOWN true (100, 40)]) start_game
  = paused_events 30 BORDER VERTICAL_CELLS HORIZONTAL_CELLS
      [MOUSEBUTTONDOWN true (100, 40)] start_game ∧
  step 30 BORDER VERTICAL_CELLS HORIZONTAL_CELLS (InPaused start_game)
    [MOUSEBUTTONDOWN true (100, 10)]
  = InPaused start_game.
Proof.
  split; [reflexivity|]. split; [reflexivity|].
  apply (paused_dead_zone_noop 30 BORDER VERTICAL_CELLS HORIZONTAL_CELLS
           (100, 10) (3, -1)); reflexivity.
Defined.

Lemma nd_get_binary (b : ndarray) i j y :
  binary b → nd_get b i j = Some y → y = 0 ∨ y = 1.
Proof.
  intros Hbin. unfold nd_get.
  destruct (np_index (length b) i) as [k|]; simpl; [|done].
  destruct (b !! k) as [row|] eqn:Hrow; simpl; [|done].
  destruct (np_index (length row) j) as [l|]; simpl; [|done].
  intros Hy. pose proof (Forall_lookup_1 _ _ _ _ Hbin Hrow) as Hr.
  by apply (Forall_lookup_1 _ _ _ _ Hr Hy).
Qed.

(** C9. On a board of zeros and ones, editing an in-range square flips
    that cell and no other cell, keeps the board's shape, and writes
    into the board object itself; editing the same square again gives
    back the store the first edit started from. *)
Theorem change_square_self_inverse
    (h : heap) (board : loc) (b : ndarray) (square : Z * Z) :
  h !! board = Some b → rect b → binary b →
  0 ≤ snd square < fst (np_shape b) →
  0 ≤ fst square < snd (np_shape b) →
  ∃ b1 y,
    nd_get b (snd square) (fst square) = Some y ∧
    change_square board square h = Some (board, <[board := b1]> h) ∧
    change_square board square (<[board := b1]> h) = Some (board, h) ∧
    np_shape b1 = np_shape b ∧
    nd_get b1 (snd square) (fst square) = Some (1 - y) ∧
    ∀ i j, 0 ≤ i → 0 ≤ j → ¬ (i = snd square ∧ j = fst square) →
      nd_get b1 i j = nd_get b i j.
Proof.
  intros Hb Hrect Hbin Hrow Hcol.
  destruct (nd_get_in_range b _ _ Hrect Hrow Hcol) as [y Hy].
  destruct (nd_set_in_range b _ _ (if decide (y = 0) then 1 else 0) Hrect Hrow Hcol)
    as [b1 Hb1].
  assert ((if decide (y = 0) then 1 else 0) = 1 - y) as Hflip.
  { destruct (nd_get_binary b _ _ y Hbin Hy) as [-> | ->]; done. }
  assert (0 ≤ snd square) as Hr0 by lia.
  assert (0 ≤ fst square) as Hc0 by lia.
  pose proof (nd_get_set b _ _ _ b1 (snd square) (fst square)
                Hr0 Hc0 Hr0 Hc0 Hb1) as Hnew.
  rewrite decide_True, Hflip in Hnew by done.
  exists b1, y. split_and!.
  - done.
  - by apply (change_square_Some h board square b y b1).
  - rewrite (change_square_Some (<[board := b1]> h) board square b1 (1 - y) b).
    + by rewrite insert_insert_eq, insert_id.
    + by rewrite lookup_insert_eq.
    + done.
    + replace (if decide (1 - y = 0) then 1 else 0) with y
        by (destruct (nd_get_binary b _ _ y Hbin Hy) as [-> | ->]; done).
      by apply (nd_set_undo b _ _ (if decide (y = 0) then 1 else 0)).
  - by apply (nd_set_shape b _ _ _ _ Hb1).
  - done.
  - intros i j Hi Hj Hne.
    rewrite (nd_get_set b _ _ _ b1 i j Hr0 Hc0 Hi Hj Hb1).
    by rewrite decide_False.
Qed.

Lemma change_square_self_inverse_witness :
  ({[0%nat := blinker]} : heap) !! 0%nat = Some blinker ∧
  rect blinker ∧ binary blinker ∧
  0 ≤ snd (1, 2) < fst (np_shape blinker) ∧
  0 ≤ fst (1, 2) < snd (np_shape blinker) ∧
  ∃ b1 y,
    nd_get blinker (snd (1, 2)) (fst (1, 2)) = Some y ∧
    change_square 0%nat (1, 2) {[0%nat := blinker]}
      = Some (0%nat, <[0%nat := b1]> {[0%nat := blinker]}) ∧
    change_square 0%nat (1, 2) (<[0%nat := b1]> {[0%nat := blinker]})
      = Some (0%nat, {[0%nat := blinker]}) ∧
    np_shape b1 = np_shape blinker ∧
    nd_get b1 (snd (1, 2)) (fst (1, 2)) = Some (1 - y) ∧
    ∀ i j, 0 ≤ i → 0 ≤ j → ¬ (i = snd (1, 2) ∧ j = fst (1, 2)) →
      nd_get b1 i j = nd_get blinker i j.
Proof.
  split; [reflexivity|]. split; [exact blinker_rect|].
  split; [exact blinker_binary|].
  split; [simpl; lia|]. split; [simpl; lia|].
  apply (change_square_self_inverse {[0%nat := blinker]} 0%nat blinker (1, 2));
    [reflexivity|exact blinker_rect|exact blinker_binary|simpl; lia|simpl; lia].
Defined.

(** C10. Whatever batches of events the loops have handled since the
    game was started on the board that [createBoard] returned, the
    board the running loop holds is made of zeros and ones. *)
Theorem reachable_boards_binary
    (cellsize border_size dimx dimy : Z) (b0 : loc) (h0 : heap)
    (batches : list (list event)) (g : game) :
  createBoard dimx dimy ∅ = Some (b0, h0) →
  run cellsize border_size dimx dimy (init b0 h0) batches = InPaused g ∨
  run cellsize border_size dimx dimy (init b0 h0) batches = InPlay g →
  ∃ b, store g !! mainBoard g = Some b ∧ binary b.
Proof.
  intros (_ & ->)%createBoard_inv Hrun.
  assert (invariant (run cellsize border_size dimx dimy
                       (init b0 (<[b0 := replicate (Z.to_nat dimx)
                                           (replicate (Z.to_nat dimy) 0)]> ∅))
                       batches)) as Hinv.
  { apply run_invariant. eexists. simpl. rewrite lookup_insert_eq.
    split_and!; [done|apply zeros_rect|apply zeros_binary]. }
  destruct Hrun as [Hrun|Hrun]; rewrite Hrun in Hinv;
    destruct Hinv as (b & Hb & _ & Hbin); by exists b.
Qed.

Lemma reachable_boards_binary_witness :
  createBoard 2 3 ∅ = Some (0%nat, {[0%nat := [[0; 0; 0]; [0; 0; 0]]]}) ∧
  (run 30 BORDER 2 3 (init 0%nat {[0%nat := [[0; 0; 0]; [0; 0; 0]]]})
     [[MOUSEBUTTONDOWN true (40, 40)]; [TICK; OTHER]]
   = InPaused (Game {[0%nat := [[0; 1; 0]; [0; 0; 0]]]} 0%nat None) ∨
   run 30 BORDER 2 3 (init 0%nat {[0%nat := [[0; 0; 0]; [0; 0; 0]]]})
     [[MOUSEBUTTONDOWN true (40, 40)]; [TICK; OTHER]]
   = InPlay (Game {[0%nat := [[0; 1; 0]; [0; 0; 0]]]} 0%nat None)) ∧
  ∃ b, store (Game {[0%nat := [[0; 1; 0]; [0; 0; 0]]]} 0%nat None)
         !! mainBoard (Game {[0%nat := [[0; 1; 0]; [0; 0; 0]]]} 0%nat None) = Some b ∧
       binary b.
Proof.
  split; [reflexivity|]. split; [left; reflexivity|].
  apply (reachable_boards_binary 30 BORDER 2 3 0%nat
           {[0%nat := [[0; 0; 0]; [0; 0; 0]]]}
           [[MOUSEBUTTONDOWN true (40, 40)]; [TICK; OTHER]]);
    [reflexivity|left; reflexivity].
Defined.

(** * Further properties of the program *)

(** ** Pixels, squares and the window *)

Lemma quot_cell (a p q : Z) :
  0 < p → 0 ≤ q → q * p ≤ a < (q + 1) * p → a ÷ p = q.
Proof.
  intros Hp Hq Ha. rewrite Z.quot_div_nonneg by nia. symmetry.
  apply (Z.div_unique a p q (a - q * p)); lia.
Qed.

(** The square of a pixel painted for cell [(i, j)]: column [j] and
    row [i + 1] of the pitch grid, before clamping. *)
Lemma cell_pixel_quot (cellsize border_size i j : Z) (pos : Z * Z) :
  0 < cellsize → 0 ≤ border_size → 0 ≤ i → 0 ≤ j →
  inside pos (cell_rect cellsize border_size i j) →
  fst pos ÷ (cellsize + border_size) = j ∧
  snd pos ÷ (cellsize + border_size) = i + 1.
Proof.
  intros Hc Hb Hi Hj [Hx Hy]. split; apply quot_cell; nia.
Qed.

(** X1. A click while [paused] runs, on a pixel that [draw] paints for
    a cell of any row but the last, is mapped to that cell's square
    and flips that cell of the board and no other. *)
Theorem click_on_drawn_cell_toggles_it
    (cellsize border_size dimx dimy i j : Z) (pos : Z * Z) (g : game) (b : ndarray) :
  0 < cellsize → 0 ≤ border_size →
  0 ≤ i ≤ dimx - 2 → 0 ≤ j < dimy →
  inside pos (cell_rect cellsize border_size i j) →
  store g !! mainBoard g = Some b → rect b → np_shape b = (dimx, dimy) →
  pos_to_square pos cellsize border_size dimx dimy = Some ((j, i), false) ∧
  ∃ b1 y,
    nd_get b i j = Some y ∧
    step cellsize border_size dimx dimy (InPaused g) [MOUSEBUTTONDOWN true pos]
    = InPaused (Game (<[mainBoard g := b1]> (store g)) (mainBoard g) (timer g)) ∧
    nd_get b1 i j = Some (if decide (y = 0) then 1 else 0) ∧
    ∀ i' j', 0 ≤ i' → 0 ≤ j' → ¬ (i' = i ∧ j' = j) →
      nd_get b1 i' j' = nd_get b i' j'.
Proof.
  intros Hc Hbs Hi Hj Hin Hb Hrect Hshape.
  destruct (cell_pixel_quot cellsize border_size i j pos) as [Hqx Hqy];
    [lia..|done|].
  assert (pos_to_square pos cellsize border_size dimx dimy = Some ((j, i), false))
    as Hpos.
  { unfold pos_to_square. rewrite decide_False by lia. rewrite Hqx, Hqy.
    rewrite !decide_False by lia. do 2 f_equal; [f_equal; lia|].
    apply bool_decide_eq_false. lia. }
  split; [done|].
  assert (0 ≤ i < fst (np_shape b)) as Hrow by (rewrite Hshape; simpl; lia).
  assert (0 ≤ j < snd (np_shape b)) as Hcol by (rewrite Hshape; simpl; lia).
  destruct (nd_get_in_range b i j Hrect Hrow Hcol) as [y Hy].
  destruct (nd_set_in_range b i j (if decide (y = 0) then 1 else 0) Hrect Hrow Hcol)
    as [b1 Hb1].
  exists b1, y. split_and!; [done| | |].
  - cbn [step paused_events]. rewrite Hpos. cbn [snd].
    rewrite decide_False by lia.
    by rewrite (change_square_Some (store g) (mainBoard g) (j, i) b y b1).
  - rewrite (nd_get_set b i j _ b1 i j) by (done || lia).
    by rewrite decide_True.
  - intros i' j' Hi' Hj' Hne.
    rewrite (nd_get_set b i j _ b1 i' j') by (done || lia).
    by rewrite decide_False.
Qed.

Lemma click_on_drawn_cell_toggles_it_witness :
  0 < 30 ∧ 0 ≤ BORDER ∧ 0 ≤ 4 ≤ VERTICAL_CELLS - 2 ∧ 0 ≤ 7 < HORIZONTAL_CELLS ∧
  inside (240, 170) (cell_rect 30 BORDER 4 7) ∧
  store start_game !! mainBoard start_game = Some start_board ∧
  rect start_board ∧
  np_shape start_board = (VERTICAL_CELLS, HORIZONTAL_CELLS) ∧
  pos_to_square (240, 170) 30 BORDER VERTICAL_CELLS HORIZONTAL_CELLS
    = Some ((7, 4), false) ∧
  ∃ b1 y,
    nd_get start_board 4 7 = Some y ∧
    step 30 BORDER VERTICAL_CELLS HORIZONTAL_CELLS (InPaused start_game)
      [MOUSEBUTTONDOWN true (240, 170)]
    = InPaused (Game (<[mainBoard start_game := b1]> (store start_game))
                  (mainBoard start_game) (timer start_game)) ∧
    nd_get b1 4 7 = Some (if decide (y = 0) then 1 else 0) ∧
    ∀ i' j', 0 ≤ i' → 0 ≤ j' → ¬ (i' = 4 ∧ j' = 7) →
      nd_get b1 i' j' = nd_get start_board i' j'.
Proof.
  split; [lia|]. split; [unfold BORDER; lia|].
  split; [unfold VERTICAL_CELLS; lia|]. split; [unfold HORIZONTAL_CELLS; lia|].
  split; [unfold inside, cell_rect, BORDER; simpl; lia|].
  split; [reflexivity|]. split; [apply zeros_rect|]. split; [reflexivity|].
  apply (click_on_drawn_cell_toggles_it 30 BORDER VERTICAL_CELLS HORIZONTAL_CELLS
           4 7 (240, 170) start_game start_board);
    [lia|unfold BORDER; lia|unfold VERTICAL_CELLS; lia|unfold HORIZONTAL_CELLS; lia
    |unfold inside, cell_rect, BORDER; simpl; lia|reflexivity|apply zeros_rect
    |reflexivity].
Defined.

(** X2. A pixel that [draw] paints for a cell of the last row of the
    board is mapped to the square of the row above it: the clamp
    [y = dim_x - 1] applies to the row of the pitch grid, which is one
    more than the row of the board. *)
Theorem click_on_last_drawn_row_maps_to_row_above
    (cellsize border_size dim_x dim_y j : Z) (pos : Z * Z) :
  0 < cellsize → 0 ≤ border_size → 2 ≤ dim_x → 0 ≤ j < dim_y →
  inside pos (cell_rect cellsize border_size (dim_x - 1) j) →
  pos_to_square pos cellsize border_size dim_x dim_y
  = Some ((j, dim_x - 2), false).
Proof.
  intros Hc Hbs Hdx Hj Hin.
  destruct (cell_pixel_quot cellsize border_size (dim_x - 1) j pos) as [Hqx Hqy];
    [lia..|done|].
  unfold pos_to_square. rewrite decide_False by lia. rewrite Hqx, Hqy.
  rewrite (decide_False (P := dim_y ≤ j)) by lia.
  rewrite (decide_True (P := dim_x ≤ dim_x - 1 + 1)) by lia.
  do 2 f_equal; [f_equal; lia|]. apply bool_decide_eq_false. lia.
Qed.

Lemma click_on_last_drawn_row_maps_to_row_above_witness :
  0 < 30 ∧ 0 ≤ BORDER ∧ 2 ≤ VERTICAL_CELLS ∧ 0 ≤ 7 < HORIZONTAL_CELLS ∧
  inside (240, 650) (cell_rect 30 BORDER (VERTICAL_CELLS - 1) 7) ∧
  pos_to_square (240, 650) 30 BORDER VERTICAL_CELLS HORIZONTAL_CELLS
  = Some ((7, VERTICAL_CELLS - 2), false).
Proof.
  split; [lia|]. split; [unfold BORDER; lia|].
  split; [unfold VERTICAL_CELLS; lia|]. split; [unfold HORIZONTAL_CELLS; lia|].
  split; [unfold inside, cell_rect, BORDER, VERTICAL_CELLS; simpl; lia|].
  apply (click_on_last_drawn_row_maps_to_row_above 30 BORDER
           VERTICAL_CELLS HORIZONTAL_CELLS 7 (240, 650));
    [lia|unfold BORDER; lia|unfold VERTICAL_CELLS; lia|unfold HORIZONTAL_CELLS; lia
    |unfold inside, cell_rect, BORDER, VERTICAL_CELLS; simpl; lia].
Defined.

(** X3. Every pixel of every rectangle that [draw_pause] or
    [draw_play] paints is mapped to the control square, for a cell of
    at least 21 pixels on a board of at least one cell each way. *)
Theorem button_pixels_are_control
    (cellsize border_size dim_x dim_y : Z) (pos : Z * Z)
    (col : colour) (r : Z * Z * Z * Z) (width : Z) :
  21 ≤ cellsize → 0 ≤ border_size → 1 ≤ dim_x → 1 ≤ dim_y →
  DrawRect col r width ∈ draw_pause [] border_size cellsize ∨
  DrawRect col r width ∈ draw_play [] border_size cellsize →
  inside pos r →
  pos_to_square pos cellsize border_size dim_x dim_y = Some ((0, -1), true).
Proof.
  intros Hc Hbs Hdx Hdy Hdraw Hin.
  assert (0 ≤ fst pos < cellsize + border_size ∧
          0 ≤ snd pos < cellsize + border_size) as [Hx Hy].
  { unfold draw_pause, draw_play in Hdraw. simpl in Hdraw.
    destruct Hdraw as [Hdraw|Hdraw];
      repeat (apply elem_of_cons in Hdraw as [Hdraw|Hdraw];
              [try discriminate Hdraw; injection Hdraw as -> -> ->;
               unfold inside in Hin; lia|]);
      by apply elem_of_nil in Hdraw. }
  unfold pos_to_square. rewrite decide_False by lia.
  rewrite (quot_cell (fst pos) _ 0), (quot_cell (snd pos) _ 0) by lia.
  rewrite !decide_False by lia. done.
Qed.

Lemma button_pixels_are_control_witness :
  21 ≤ 30 ∧ 0 ≤ BORDER ∧ 1 ≤ VERTICAL_CELLS ∧ 1 ≤ HORIZONTAL_CELLS ∧
  (DrawRect BLACK (BORDER + 17, BORDER + 7, 4, 30 - 14) 0 ∈ draw_pause [] BORDER 30 ∨
   DrawRect BLACK (BORDER + 17, BORDER + 7, 4, 30 - 14) 0 ∈ draw_play [] BORDER 30) ∧
  inside (22, 24) (BORDER + 17, BORDER + 7, 4, 30 - 14) ∧
  pos_to_square (22, 24) 30 BORDER VERTICAL_CELLS HORIZONTAL_CELLS
  = Some ((0, -1), true).
Proof.
  assert (DrawRect BLACK (BORDER + 17, BORDER + 7, 4, 30 - 14) 0
          ∈ draw_pause [] BORDER 30) as Hbar.
  { unfold draw_pause. simpl. do 3 apply list_elem_of_further.
    apply list_elem_of_here. }
  split; [lia|]. split; [unfold BORDER; lia|].
  split; [unfold VERTICAL_CELLS; lia|]. split; [unfold HORIZONTAL_CELLS; lia|].
  split; [by left|]. split; [unfold inside, BORDER; simpl; lia|].
  apply (button_pixels_are_control 30 BORDER VERTICAL_CELLS HORIZONTAL_CELLS
           (22, 24) BLACK (BORDER + 17, BORDER + 7, 4, 30 - 14) 0);
    [lia|unfold BORDER; lia|unfold VERTICAL_CELLS; lia|unfold HORIZONTAL_CELLS; lia
    |by left|unfold inside, BORDER; simpl; lia].
Defined.

(** X4. Every pixel that [draw] paints for a cell of a [dim_x] by
    [dim_y] board is a pixel of the window that [init] opens, and the
    last cell ends one border short of the window's far corner. *)
Theorem drawn_cells_fit_window (dim_x dim_y i j : Z) (pos : Z * Z) :
  0 ≤ i < dim_x → 0 ≤ j < dim_y →
  inside pos (cell_rect 30 BORDER i j) →
  (0 ≤ fst pos < fst (init_window dim_x dim_y)) ∧
  (0 ≤ snd pos < snd (init_window dim_x dim_y)) ∧
  cell_rect 30 BORDER (dim_x - 1) (dim_y - 1)
  = (fst (init_window dim_x dim_y) - BORDER - 30,
     snd (init_window dim_x dim_y) - BORDER - 30, 30, 30).
Proof.
  intros Hi Hj [Hx Hy]. unfold init_window, cell_rect, BORDER in *.
  cbn [fst snd] in *. split_and!; try lia.
  repeat f_equal; lia.
Qed.

Lemma drawn_cells_fit_window_witness :
  0 ≤ 19 < VERTICAL_CELLS ∧ 0 ≤ 29 < HORIZONTAL_CELLS ∧
  inside (959, 671) (cell_rect 30 BORDER 19 29) ∧
  (0 ≤ fst (959, 671) < fst (init_window VERTICAL_CELLS HORIZONTAL_CELLS)) ∧
  (0 ≤ snd (959, 671) < snd (init_window VERTICAL_CELLS HORIZONTAL_CELLS)) ∧
  cell_rect 30 BORDER (VERTICAL_CELLS - 1) (HORIZONTAL_CELLS - 1)
  = (fst (init_window VERTICAL_CELLS HORIZONTAL_CELLS) - BORDER - 30,
     snd (init_window VERTICAL_CELLS HORIZONTAL_CELLS) - BORDER - 30, 30, 30).
Proof.
  split; [unfold VERTICAL_CELLS; lia|]. split; [unfold HORIZONTAL_CELLS; lia|].
  split; [unfold inside, cell_rect, BORDER; simpl; lia|].
  apply (drawn_cells_fit_window VERTICAL_CELLS HORIZONTAL_CELLS 19 29 (959, 671));
    [unfold VERTICAL_CELLS; lia|unfold HORIZONTAL_CELLS; lia
    |unfold inside, cell_rect, BORDER; simpl; lia].
Defined.

(** ** The loops keep the board's shape and do not raise *)

Lemma zeros_shape (dimx dimy : Z) :
  1 ≤ dimx → 0 ≤ dimy →
  np_shape (replicate (Z.to_nat dimx) (replicate (Z.to_nat dimy) 0)) = (dimx, dimy).
Proof.
  intros Hx Hy. unfold np_shape. rewrite length_replicate.
  destruct (Z.to_nat dimx) as [|n] eqn:Hn; [lia|]. simpl.
  rewrite length_replicate. f_equal; lia.
Qed.

Lemma change_square_shaped sx sy g square l h' t :
  shaped sx sy g →
  change_square (mainBoard g) square (store g) = Some (l, h') →
  shaped sx sy (Game h' l t).
Proof.
  intros (b & Hb & Hrect & Hshape)
         (-> & b' & y & b1 & Hb' & _ & Hset & ->)%change_square_inv.
  assert (b' = b) as -> by congruence.
  exists b1. simpl. rewrite lookup_insert_eq. split_and!; [done|..].
  - by apply (nd_set_rect b _ _ _ _ Hrect Hset).
  - by rewrite (nd_set_shape _ _ _ _ _ Hset).
Qed.

Lemma copy_tick_Some (h : heap) board b :
  h !! board = Some b → rect b →
  ∃ c out o,
    (c ← np_copy board; tick c) h = Some (out, <[out := o]> (<[c := b]> h)) ∧
    h !! c = None ∧ (<[c := b]> h : heap) !! out = None ∧
    np_shape o = np_shape b ∧ rect o ∧
    ∀ i j, 0 ≤ i < fst (np_shape b) → 0 ≤ j < snd (np_shape b) →
      ∃ y, nd_get b i j = Some y ∧
           nd_get o i j = Some (fst (rules y (torus_count b i j))).
Proof.
  intros Hb Hrect.
  pose proof (fresh_lookup h) as Hc.
  destruct (tick_spec (<[fresh (dom h) := b]> h) (fresh (dom h)) b)
    as (o & Hrun & Hshape & Hro & Hcells); [by rewrite lookup_insert_eq|done|].
  exists (fresh (dom h)), (fresh (dom (<[fresh (dom h) := b]> h))), o.
  split_and!; [|done|apply fresh_lookup|done..].
  rewrite (bind_Some _ _ _ (fresh (dom h)) (<[fresh (dom h) := b]> h));
    [done|]. unfold np_copy. by rewrite Hb.
Qed.

Lemma copy_tick_shaped sx sy g t :
  shaped sx sy g →
  ∃ l h', (c ← np_copy (mainBoard g); tick c) (store g) = Some (l, h') ∧
          shaped sx sy (Game h' l t).
Proof.
  intros (b & Hb & Hrect & Hshape).
  destruct (copy_tick_Some (store g) (mainBoard g) b Hb Hrect)
    as (c & out & o & Hrun & _ & _ & Hso & Hro & _).
  eexists _, _. split; [exact Hrun|]. exists o. simpl.
  rewrite lookup_insert_eq. split_and!; [done..|]. by rewrite Hso.
Qed.

Lemma pos_to_square_range pos cellsize border_size dim_x dim_y :
  0 ≤ fst pos → 0 ≤ snd pos → 0 < cellsize + border_size →
  1 ≤ dim_x → 1 ≤ dim_y →
  ∃ square pause,
    pos_to_square pos cellsize border_size dim_x dim_y = Some (square, pause) ∧
    (0 ≤ fst square < dim_y) ∧ (-1 ≤ snd square ≤ dim_x - 2).
Proof.
  intros Hpx Hpy Hpitch Hdx Hdy. unfold pos_to_square.
  rewrite decide_False by lia. eexists _, _. split; [done|]. cbn [fst snd].
  pose proof (Z.quot_pos (fst pos) (cellsize + border_size) Hpx Hpitch).
  pose proof (Z.quot_pos (snd pos) (cellsize + border_size) Hpy Hpitch).
  split; [destruct (decide (dim_y ≤ _)); lia|destruct (decide (dim_x ≤ _)); lia].
Qed.

Lemma change_square_in_range dimx dimy g square :
  shaped dimx dimy g →
  0 ≤ snd square < dimx → 0 ≤ fst square < dimy →
  is_Some (change_square (mainBoard g) square (store g)).
Proof.
  intros (b & Hb & Hrect & Hshape) Hrow Hcol.
  assert (0 ≤ snd square < fst (np_shape b)) as Hr by (by rewrite Hshape).
  assert (0 ≤ fst square < snd (np_shape b)) as Hc by (by rewrite Hshape).
  destruct (nd_get_in_range b _ _ Hrect Hr Hc) as [y Hy].
  destruct (nd_set_in_range b _ _ (if decide (y = 0) then 1 else 0) Hrect Hr Hc)
    as [b1 Hb1].
  eexists. by apply (change_square_Some _ _ _ b y b1).
Qed.

Section LoopsSafety.
Variables cellsize border_size dimx dimy : Z.

Lemma paused_events_keeps sx sy es g :
  shaped sx sy g → keeps sx sy (paused_events cellsize border_size dimx dimy es g).
Proof.
  revert g. induction es as [|e es IH]; intros g Hg; [done|].
  destruct e as [|[] pos| |]; cbn [paused_events]; [done| |by apply IH..].
  destruct (pos_to_square _ _ _ _ _) as [[square []]|]; [| |done].
  - destruct Hg as (b & Hb & Hrect & Hshape). by exists b.
  - case_decide; [by apply IH|].
    destruct (change_square _ _ _) as [[l h']|] eqn:Hch; [|done].
    apply IH. by apply (change_square_shaped sx sy g square).
Qed.

Lemma play_events_keeps sx sy es pause g pause' g' :
  shaped sx sy g →
  play_events cellsize border_size dimx dimy es pause g = Some (Some (pause', g')) →
  shaped sx sy g'.
Proof.
  revert pause g. induction es as [|e es IH]; intros pause g Hg.
  - simpl. intros; by simplify_eq.
  - destruct e as [|[] pos| |]; cbn [play_events]; [done| |by apply IH| |by apply IH].
    + destruct (pos_to_square _ _ _ _ _) as [[square p]|]; [by apply IH|done].
    + destruct (copy_tick_shaped sx sy g (Some TICK_SPEED) Hg)
        as (l & h' & Hrun & Hshaped).
      rewrite Hrun. by apply IH.
Qed.

Lemma step_keeps sx sy c es :
  keeps sx sy c → keeps sx sy (step cellsize border_size dimx dimy c es).
Proof.
  destruct c as [g|g| |]; cbn [step keeps]; [| |done..].
  - apply paused_events_keeps.
  - intros Hg. unfold play_pass.
    destruct (play_events _ _ _ _ _ _ _) as [[[p g']|]|] eqn:Hplay; [|done..].
    apply (play_events_keeps _ _ _ _ _ _ _ Hg) in Hplay. by destruct p.
Qed.

Lemma run_keeps sx sy c batches :
  keeps sx sy c → keeps sx sy (run cellsize border_size dimx dimy c batches).
Proof.
  revert c. induction batches as [|es batches IH]; intros c Hc; [done|].
  apply IH. by apply step_keeps.
Qed.

Hypothesis Hpitch : 0 < cellsize + border_size.
Hypothesis Hdimx : 1 ≤ dimx.
Hypothesis Hdimy : 1 ≤ dimy.

Lemma paused_events_safe es g :
  Forall pointer_ok es → shaped dimx dimy g →
  safe dimx dimy (paused_events cellsize border_size dimx dimy es g).
Proof.
  intros Hes. revert g. induction Hes as [|e es He _ IH]; intros g Hg; [done|].
  destruct e as [|[] pos| |]; cbn [paused_events]; [done| |by apply IH..].
  destruct He as [[Hpx _] [Hpy _]].
  destruct (pos_to_square_range pos cellsize border_size dimx dimy)
    as (square & pause & Hpos & Hcol & Hrow); [done..|].
  rewrite Hpos. destruct pause.
  - destruct Hg as (b & Hb & Hrect & Hshape). by exists b.
  - case_decide; [by apply IH|].
    destruct (change_square_in_range dimx dimy g square Hg) as [[l h'] Hch];
      [lia|lia|].
    rewrite Hch. apply IH. by apply (change_square_shaped dimx dimy g square).
Qed.

Lemma play_events_safe es pause g :
  Forall pointer_ok es → shaped dimx dimy g →
  play_events cellsize border_size dimx dimy es pause g ≠ None.
Proof.
  intros Hes. revert pause g.
  induction Hes as [|e es He _ IH]; intros pause g Hg; [done|].
  destruct e as [|[] pos| |]; cbn [play_events]; [done| |by apply IH| |by apply IH].
  - destruct He as [[Hpx _] [Hpy _]].
    destruct (pos_to_square_range pos cellsize border_size dimx dimy)
      as (square & p & Hpos & _); [done..|].
    rewrite Hpos. by apply IH.
  - destruct (copy_tick_shaped dimx dimy g (Some TICK_SPEED) Hg)
      as (l & h' & Hrun & Hshaped).
    rewrite Hrun. by apply IH.
Qed.

Lemma step_safe c es :
  Forall pointer_ok es → safe dimx dimy c →
  safe dimx dimy (step cellsize border_size dimx dimy c es).
Proof.
  intros Hes. destruct c as [g|g| |]; cbn [step safe]; [| |done..].
  - by apply paused_events_safe.
  - intros Hg. unfold play_pass.
    pose proof (play_events_safe es false g Hes Hg) as Hne.
    destruct (play_events _ _ _ _ _ _ _) as [[[p g']|]|] eqn:Hplay; [|done..].
    apply (play_events_keeps _ _ _ _ _ _ _ Hg) in Hplay. by destruct p.
Qed.

Lemma run_safe c batches :
  Forall (Forall pointer_ok) batches → safe dimx dimy c →
  safe dimx dimy (run cellsize border_size dimx dimy c batches).
Proof.
  intros Hbs. revert c.
  induction Hbs as [|es batches Hes _ IH]; intros c Hc; [done|].
  apply IH. by apply step_safe.
Qed.

End LoopsSafety.

Lemma createBoard_shaped dimx dimy b0 h0 :
  1 ≤ dimx → createBoard dimx dimy ∅ = Some (b0, h0) →
  shaped dimx dimy (Game h0 b0 None).
Proof.
  intros Hx Hcreate.
  assert (0 ≤ dimy) as Hy.
  { unfold createBoard, np_zeros in Hcreate. case_decide; [lia|done]. }
  apply createBoard_inv in Hcreate as [_ ->].
  eexists. simpl. rewrite lookup_insert_eq.
  split_and!; [done|apply zeros_rect|by apply zeros_shape].
Qed.

(** A change of mode needs a click in the batch. *)
Lemma paused_enters_play_has_click cellsize border_size dimx dimy es g g' :
  paused_events cellsize border_size dimx dimy es g = InPlay g' →
  has_click es = true.
Proof.
  revert g. induction es as [|e es IH]; intros g; [done|].
  destruct e as [|[] pos| |]; cbn [paused_events]; [done|done|by apply IH..].
Qed.

Lemma play_events_pause_has_click cellsize border_size dimx dimy es pause g g' :
  play_events cellsize border_size dimx dimy es pause g = Some (Some (true, g')) →
  pause = true ∨ has_click es = true.
Proof.
  revert pause g. induction es as [|e es IH]; intros pause g.
  - simpl. intros; simplify_eq. by left.
  - destruct e as [|[] pos| |]; cbn [play_events]; [done|by right|..].
    + intros Hrun. by apply IH in Hrun.
    + destruct ((np_copy (mainBoard g) ≫= _) (store g)) as [[l h']|]; [|done].
      intros Hrun. by apply IH in Hrun.
    + intros Hrun. by apply IH in Hrun.
Qed.

Lemma play_pass_pauses_has_click cellsize border_size dimx dimy es g g' :
  play_pass cellsize border_size dimx dimy es g = InPaused g' →
  has_click es = true.
Proof.
  unfold play_pass.
  destruct (play_events _ _ _ _ es false g) as [[[[] g'']|]|] eqn:Hrun; [|done..].
  intros _. by destruct (play_events_pause_has_click _ _ _ _ _ _ _ _ Hrun).
Qed.

Section StackSafety.
Variables cellsize border_size dimx dimy : Z.
Variable limit : nat.
Hypothesis Hpitch : 0 < cellsize + border_size.
Hypothesis Hdimx : 1 ≤ dimx.
Hypothesis Hdimy : 1 ≤ dimy.

Lemma step_stack_safe c depth es :
  Forall pointer_ok es → safe dimx dimy c →
  (depth + (if has_click es then 1 else 0) ≤ limit)%nat →
  safe dimx dimy
    (fst (step_stack cellsize border_size dimx dimy limit (c, depth) es)) ∧
  (snd (step_stack cellsize border_size dimx dimy limit (c, depth) es)
   ≤ depth + (if has_click es then 1 else 0))%nat.
Proof.
  intros Hes Hc Hroom.
  pose proof (step_safe cellsize border_size dimx dimy Hpitch Hdimx Hdimy c es Hes Hc)
    as Hstep.
  destruct c as [g|g| |]; cbn [step_stack step fst snd] in *;
    [| |split; [done|lia]..].
  - destruct (paused_events cellsize border_size dimx dimy es g)
      as [g'|g'| |] eqn:Hrun; cbn [fst snd]; [split; [done|lia]| |split; [done|lia]..].
    rewrite (paused_enters_play_has_click _ _ _ _ _ _ _ Hrun) in Hroom |- *.
    unfold enter. rewrite decide_True by lia. split; [done|simpl; lia].
  - destruct (play_pass cellsize border_size dimx dimy es g)
      as [g'|g'| |] eqn:Hrun; cbn [fst snd]; [|split; [done|lia]..].
    rewrite (play_pass_pauses_has_click _ _ _ _ _ _ _ Hrun) in Hroom |- *.
    unfold enter. rewrite decide_True by lia. split; [done|simpl; lia].
Qed.

Lemma run_stack_safe batches c depth :
  Forall (Forall pointer_ok) batches → safe dimx dimy c →
  (depth + click_batches batches ≤ limit)%nat →
  safe dimx dimy
    (fst (run_stack cellsize border_size dimx dimy limit (c, depth) batches)) ∧
  (snd (run_stack cellsize border_size dimx dimy limit (c, depth) batches)
   ≤ depth + click_batches batches)%nat.
Proof.
  intros Hbs. revert c depth.
  induction Hbs as [|es batches Hes _ IH]; intros c depth Hc Hroom.
  - simpl. split; [done|lia].
  - cbn [click_batches] in Hroom |- *. unfold run_stack. cbn [foldl].
    destruct (step_stack_safe c depth es Hes Hc ltac:(lia)) as [Hsafe Hdepth].
    destruct (step_stack cellsize border_size dimx dimy limit (c, depth) es)
      as [c' depth'] eqn:Hstep.
    cbn [fst snd] in Hsafe, Hdepth.
    destruct (IH c' depth' Hsafe ltac:(lia)) as [Hsafe' Hdepth'].
    split; [exact Hsafe'|]. unfold run_stack in Hdepth'. lia.
Qed.

End StackSafety.

(** X5. With a positive cell pitch and a board of at least one cell
    each way, started on the board [createBoard] returns, the loops
    raise no exception before QUIT is handled, whatever events arrive,
    as long as the pointers of the clicks are the non-negative C ints
    pygame reports and the stack has room: every change of mode adds a
    frame and needs a click, and no more batches hold a click than
    there is room for changes of mode.  The number of changes of mode
    made is at most the number of such batches. *)
Theorem run_never_crashes
    (cellsize border_size dimx dimy : Z) (limit : nat) (b0 : loc) (h0 : heap)
    (batches : list (list event)) :
  0 < cellsize + border_size < 2147483648 → 1 ≤ dimx → 1 ≤ dimy →
  createBoard dimx dimy ∅ = Some (b0, h0) →
  Forall (Forall pointer_ok) batches →
  (click_batches batches ≤ limit)%nat →
  fst (run_stack cellsize border_size dimx dimy limit (init b0 h0, 0%nat) batches)
    ≠ Crashed ∧
  (snd (run_stack cellsize border_size dimx dimy limit (init b0 h0, 0%nat) batches)
   ≤ click_batches batches)%nat.
Proof.
  intros [Hpitch _] Hx Hy Hcreate Hbatches Hroom.
  destruct (run_stack_safe cellsize border_size dimx dimy limit Hpitch Hx Hy
              batches (init b0 h0) 0%nat Hbatches
              (createBoard_shaped dimx dimy b0 h0 Hx Hcreate) ltac:(lia))
    as [Hsafe Hdepth].
  split; [|lia]. intros Hrun. by rewrite Hrun in Hsafe.
Qed.

Lemma run_never_crashes_witness :
  0 < 30 + BORDER < 2147483648 ∧ 1 ≤ VERTICAL_CELLS ∧ 1 ≤ HORIZONTAL_CELLS ∧
  createBoard VERTICAL_CELLS HORIZONTAL_CELLS ∅
    = Some (0%nat, {[0%nat := start_board]}) ∧
  Forall (Forall pointer_ok) demo_batches ∧
  (click_batches demo_batches ≤ 900)%nat ∧
  fst (run_stack 30 BORDER VERTICAL_CELLS HORIZONTAL_CELLS 900
         (init 0%nat {[0%nat := start_board]}, 0%nat) demo_batches) ≠ Crashed ∧
  (snd (run_stack 30 BORDER VERTICAL_CELLS HORIZONTAL_CELLS 900
          (init 0%nat {[0%nat := start_board]}, 0%nat) demo_batches)
   ≤ click_batches demo_batches)%nat.
Proof.
  assert (Forall (Forall pointer_ok) demo_batches) as Hok.
  { unfold demo_batches.
    repeat first [apply Forall_nil_2 | apply Forall_cons_2]; simpl; auto; lia. }
  split; [unfold BORDER; lia|]. split; [unfold VERTICAL_CELLS; lia|].
  split; [unfold HORIZONTAL_CELLS; lia|]. split; [reflexivity|].
  split; [exact Hok|]. split; [simpl; lia|].
  apply (run_never_crashes 30 BORDER VERTICAL_CELLS HORIZONTAL_CELLS 900
           0%nat {[0%nat := start_board]} demo_batches);
    [unfold BORDER; lia|unfold VERTICAL_CELLS; lia|unfold HORIZONTAL_CELLS; lia
    |reflexivity|exact Hok|simpl; lia].
Defined.




(** With room for two changes of mode, the third click on the control
    square raises. *)
Example third_mode_change_overflows :
  run_stack 30 BORDER VERTICAL_CELLS HORIZONTAL_CELLS 2 (InPaused start_game, 0%nat)
    (replicate 3 [MOUSEBUTTONDOWN true (10, 10)])
  = (Crashed, 2%nat).
Proof. reflexivity. Qed.

(** X6. The board never changes shape: whatever batches of events the
    loops have handled since the game was started on the board that
    [createBoard dimx dimy] returned, the board the running loop holds
    is a rectangular [dimx] by [dimy] array. *)
Theorem run_keeps_shape
    (cellsize border_size dimx dimy : Z) (b0 : loc) (h0 : heap)
    (batches : list (list event)) (g : game) :
  1 ≤ dimx →
  createBoard dimx dimy ∅ = Some (b0, h0) →
  run cellsize border_size dimx dimy (init b0 h0) batches = InPaused g ∨
  run cellsize border_size dimx dimy (init b0 h0) batches = InPlay g →
  ∃ b, store g !! mainBoard g = Some b ∧ rect b ∧ np_shape b = (dimx, dimy).
Proof.
  intros Hx Hcreate Hrun.
  pose proof (run_keeps cellsize border_size dimx dimy dimx dimy
                (init b0 h0) batches
                (createBoard_shaped dimx dimy b0 h0 Hx Hcreate)) as Hkeeps.
  destruct Hrun as [Hrun|Hrun]; rewrite Hrun in Hkeeps; exact Hkeeps.
Qed.

Lemma run_keeps_shape_witness :
  1 ≤ 2 ∧
  createBoard 2 3 ∅ = Some (0%nat, {[0%nat := [[0; 0; 0]; [0; 0; 0]]]}) ∧
  (run 30 BORDER 2 3 (init 0%nat {[0%nat := [[0; 0; 0]; [0; 0; 0]]]})
     [[MOUSEBUTTONDOWN true (40, 40)]; [TICK; OTHER]]
   = InPaused (Game {[0%nat := [[0; 1; 0]; [0; 0; 0]]]} 0%nat None) ∨
   run 30 BORDER 2 3 (init 0%nat {[0%nat := [[0; 0; 0]; [0; 0; 0]]]})
     [[MOUSEBUTTONDOWN true (40, 40)]; [TICK; OTHER]]
   = InPlay (Game {[0%nat := [[0; 1; 0]; [0; 0; 0]]]} 0%nat None)) ∧
  ∃ b, store (Game {[0%nat := [[0; 1; 0]; [0; 0; 0]]]} 0%nat None)
         !! mainBoard (Game {[0%nat := [[0; 1; 0]; [0; 0; 0]]]} 0%nat None) = Some b ∧
       rect b ∧ np_shape b = (2, 3).
Proof.
  split; [lia|]. split; [reflexivity|]. split; [left; reflexivity|].
  apply (run_keeps_shape 30 BORDER 2 3 0%nat
           {[0%nat := [[0; 0; 0]; [0; 0; 0]]]}
           [[MOUSEBUTTONDOWN true (40, 40)]; [TICK; OTHER]]);
    [lia|reflexivity|left; reflexivity].
Defined.

(** ** What editing does to the store *)

Lemma pos_to_square_row_le pos cellsize border_size dim_x dim_y square pause :
  pos_to_square pos cellsize border_size dim_x dim_y = Some (square, pause) →
  snd square ≤ dim_x - 2.
Proof.
  unfold pos_to_square. case_decide; [done|]. intros Hpos.
  injection Hpos as <- _. cbn [snd]. case_decide; lia.
Qed.

Lemma np_index_not_last n i k :
  np_index n i = Some k → i ≤ Z.of_nat n - 2 → i ≠ -1 → (S k < n)%nat.
Proof. unfold np_index. repeat case_decide; intros; simplify_eq; lia. Qed.

Lemma change_square_keeps_last (h : heap) board b square l h' :
  h !! board = Some b →
  snd square ≤ Z.of_nat (length b) - 2 → snd square ≠ -1 →
  change_square board square h = Some (l, h') →
  l = board ∧ ∃ b', h' = <[board := b']> h ∧ length b' = length b ∧ last b' = last b.
Proof.
  intros Hb Hle Hdead (-> & b0 & y & b1 & Hb0 & _ & Hset & ->)%change_square_inv.
  assert (b0 = b) as -> by congruence. split; [done|].
  apply nd_set_inv in Hset as (k & row & c & Hk & _ & _ & ->).
  eexists. split; [done|]. rewrite length_insert. split; [done|].
  pose proof (np_index_not_last _ _ _ Hk Hle Hdead).
  rewrite !last_lookup, length_insert. apply list_lookup_insert_ne. lia.
Qed.

(** X7. Clicks never reach the last row of the board: whatever a batch
    of events makes [paused] do, the last row of the board is
    afterwards what it was before. *)
Theorem paused_never_edits_last_row
    (cellsize border_size dimx dimy : Z) (es : list event) (g g' : game)
    (b : ndarray) :
  store g !! mainBoard g = Some b → Z.of_nat (length b) = dimx →
  paused_events cellsize border_size dimx dimy es g = InPaused g' ∨
  paused_events cellsize border_size dimx dimy es g = InPlay g' →
  ∃ b', store g' !! mainBoard g' = Some b' ∧ last b' = last b.
Proof.
  revert g b. induction es as [|e es IH]; intros g b Hb Hlen Hrun.
  - destruct Hrun as [Hrun|Hrun]; simpl in Hrun; [|done].
    injection Hrun as <-. by exists b.
  - destruct e as [|[] pos| |]; cbn [paused_events] in Hrun;
      [by destruct Hrun| |by apply (IH g)..].
    destruct (pos_to_square pos cellsize border_size dimx dimy)
      as [[square []]|] eqn:Hpos; [| |by destruct Hrun].
    + destruct Hrun as [Hrun|Hrun]; [done|]. injection Hrun as <-. by exists b.
    + case_decide as Hdead; [by apply (IH g)|].
      destruct (change_square _ _ _) as [[l h']|] eqn:Hch; [|by destruct Hrun].
      apply pos_to_square_row_le in Hpos.
      apply (change_square_keeps_last _ _ b) in Hch
        as (-> & b1 & -> & Hlen1 & Hlast); [|done|lia|done].
      destruct (IH (Game (<[mainBoard g := b1]> (store g)) (mainBoard g) (timer g)) b1)
        as (b' & Hb' & Hlast'); [by simpl; rewrite lookup_insert_eq|lia|done|].
      exists b'. split; [done|]. by rewrite Hlast'.
Qed.

Lemma paused_never_edits_last_row_witness :
  store start_game !! mainBoard start_game = Some start_board ∧
  Z.of_nat (length start_board) = VERTICAL_CELLS ∧
  (paused_events 30 BORDER VERTICAL_CELLS HORIZONTAL_CELLS
     [MOUSEBUTTONDOWN true (240, 650)] start_game
   = InPaused (Game (<[0%nat := <[18%nat := <[7%nat := 1]> (replicate 30 0)]> start_board]>
                       (store start_game)) 0%nat None) ∨
   paused_events 30 BORDER VERTICAL_CELLS HORIZONTAL_CELLS
     [MOUSEBUTTONDOWN true (240, 650)] start_game
   = InPlay (Game (<[0%nat := <[18%nat := <[7%nat := 1]> (replicate 30 0)]> start_board]>
                     (store start_game)) 0%nat None)) ∧
  ∃ b', store (Game (<[0%nat := <[18%nat := <[7%nat := 1]> (replicate 30 0)]> start_board]>
                       (store start_game)) 0%nat None)
          !! mainBoard (Game (<[0%nat := <[18%nat := <[7%nat := 1]> (replicate 30 0)]> start_board]>
                                (store start_game)) 0%nat None) = Some b' ∧
        last b' = last start_board.
Proof.
  split; [reflexivity|]. split; [reflexivity|]. split; [left; reflexivity|].
  apply (paused_never_edits_last_row 30 BORDER VERTICAL_CELLS HORIZONTAL_CELLS
           [MOUSEBUTTONDOWN true (240, 650)] start_game _ start_board);
    [reflexivity|reflexivity|left; reflexivity].
Defined.

(** X8. [paused] edits the board in place: after a batch of events the
    loop still holds the same array object, no array has been created
    or dropped, and every other array is unchanged.  The timer is left
    alone while [paused] goes on and is armed when [play] takes over. *)
Theorem paused_edits_in_place
    (cellsize border_size dimx dimy : Z) (es : list event) (g : game) :
  match paused_events cellsize border_size dimx dimy es g with
  | InPaused g' =>
      mainBoard g' = mainBoard g ∧ timer g' = timer g ∧
      dom (store g') = dom (store g) ∧
      ∀ l, l ≠ mainBoard g → store g' !! l = store g !! l
  | InPlay g' =>
      mainBoard g' = mainBoard g ∧ timer g' = Some TICK_SPEED ∧
      dom (store g') = dom (store g) ∧
      ∀ l, l ≠ mainBoard g → store g' !! l = store g !! l
  | Exited | Crashed => True
  end.
Proof.
  revert g. induction es as [|e es IH]; intros g; [done|].
  destruct e as [|[] pos| |]; cbn [paused_events]; [done| |by apply IH..].
  destruct (pos_to_square pos cellsize border_size dimx dimy)
    as [[square []]|]; [done| |done].
  case_decide; [by apply IH|].
  destruct (change_square _ _ _) as [[l h']|] eqn:Hch; [|done].
  apply change_square_inv in Hch as (-> & b & y & b1 & Hb & _ & _ & ->).
  specialize (IH (Game (<[mainBoard g := b1]> (store g)) (mainBoard g) (timer g))).
  assert (dom (<[mainBoard g := b1]> (store g)) = dom (store g)) as Hdom
    by (by apply dom_insert_lookup_L).
  destruct (paused_events _ _ _ _ es _) as [g'|g'| |]; [| |done..]; simpl in IH;
    destruct IH as (Hl & Ht & Hd & Hframe); (split_and!; [done|done|congruence|]);
    intros l Hne; rewrite Hframe by done; by rewrite lookup_insert_ne.
Qed.

(** ** Ticks *)

(** X9. A TICK event handled by [play] replaces the board by a newly
    allocated array of the same shape holding the next generation of
    the old board, arms the timer again and leaves control in [play];
    every array the store held before, the old board among them, is
    unchanged.  The next generation: a cell is 1 exactly when the old
    cell is 1 and 2 or 3 of its eight neighbours on the torus of the
    old board are alive, or the old cell is 0 and exactly 3 are, and
    it is 0 otherwise. *)
Theorem play_tick_advances
    (cellsize border_size dimx dimy : Z) (g : game) (b : ndarray) :
  store g !! mainBoard g = Some b → rect b →
  ∃ g' o,
    step cellsize border_size dimx dimy (InPlay g) [TICK] = InPlay g' ∧
    timer g' = Some TICK_SPEED ∧
    store g !! mainBoard g' = None ∧
    (∀ l, is_Some (store g !! l) → store g' !! l = store g !! l) ∧
    store g' !! mainBoard g' = Some o ∧
    np_shape o = np_shape b ∧
    ∀ i j, 0 ≤ i < fst (np_shape b) → 0 ≤ j < snd (np_shape b) →
      ∃ y,
        nd_get b i j = Some y ∧
        nd_get o i j = Some (fst (rules y (torus_count b i j))) ∧
        (nd_get o i j = Some 1 ↔
           (y = 1 ∧ (torus_count b i j = 2 ∨ torus_count b i j = 3)) ∨
           (y = 0 ∧ torus_count b i j = 3)) ∧
        (nd_get o i j = Some 0 ∨ nd_get o i j = Some 1).
Proof.
  intros Hb Hrect.
  destruct (copy_tick_Some (store g) (mainBoard g) b Hb Hrect)
    as (c & out & o & Hrun & Hc & Hout & Hshape & _ & Hcells).
  assert (out ≠ c) as Hne by (intros ->; by rewrite lookup_insert_eq in Hout).
  rewrite lookup_insert_ne in Hout by done.
  exists (Game (<[out := o]> (<[c := b]> (store g))) out (Some TICK_SPEED)), o.
  split_and!; [|done|done| |by simpl; rewrite lookup_insert_eq|done|].
  - cbn [step]. unfold play_pass. cbn [play_events]. by rewrite Hrun.
  - intros l [a Ha]. simpl.
    rewrite !lookup_insert_ne by (intros ->; congruence). done.
  - intros i j Hi Hj. destruct (Hcells i j Hi Hj) as (y & Hy & Ho).
    exists y. split; [done|]. split; [done|]. rewrite Ho. split.
    + rewrite <- rules_alive_iff. split; intros; congruence.
    + destruct (rules_binary y (torus_count b i j)) as [-> | ->]; auto.
Qed.

Lemma play_tick_advances_witness :
  store (Game {[0%nat := blinker]} 0%nat None)
    !! mainBoard (Game {[0%nat := blinker]} 0%nat None) = Some blinker ∧
  rect blinker ∧
  ∃ g' o,
    step 30 BORDER 3 3 (InPlay (Game {[0%nat := blinker]} 0%nat None)) [TICK]
      = InPlay g' ∧
    timer g' = Some TICK_SPEED ∧
    store (Game {[0%nat := blinker]} 0%nat None) !! mainBoard g' = None ∧
    (∀ l, is_Some (store (Game {[0%nat := blinker]} 0%nat None) !! l) →
          store g' !! l = store (Game {[0%nat := blinker]} 0%nat None) !! l) ∧
    store g' !! mainBoard g' = Some o ∧
    np_shape o = np_shape blinker ∧
    ∀ i j, 0 ≤ i < fst (np_shape blinker) → 0 ≤ j < snd (np_shape blinker) →
      ∃ y,
        nd_get blinker i j = Some y ∧
        nd_get o i j = Some (fst (rules y (torus_count blinker i j))) ∧
        (nd_get o i j = Some 1 ↔
           (y = 1 ∧ (torus_count blinker i j = 2 ∨ torus_count blinker i j = 3)) ∨
           (y = 0 ∧ torus_count blinker i j = 3)) ∧
        (nd_get o i j = Some 0 ∨ nd_get o i j = Some 1).
Proof.
  split; [reflexivity|]. split; [exact blinker_rect|].
  apply (play_tick_advances 30 BORDER 3 3 (Game {[0%nat := blinker]} 0%nat None) blinker);
    [reflexivity|exact blinker_rect].
Defined.

(** Two rectangular arrays of the same shape with the same cells are
    the same array. *)
Lemma nd_ext (a a' : ndarray) :
  rect a → rect a' → np_shape a = np_shape a' →
  (∀ i j, 0 ≤ i < fst (np_shape a) → 0 ≤ j < snd (np_shape a) →
     nd_get a i j = nd_get a' i j) →
  a = a'.
Proof.
  intros Ha Ha' Hshape Hcells. unfold np_shape in Hshape, Hcells.
  injection Hshape as Hlen Hcols. apply Nat2Z.inj in Hlen, Hcols.
  cbn [fst snd] in Hcells.
  apply list_eq. intros k.
  destruct (decide (k < length a)%nat) as [Hk|Hk].
  - destruct (lookup_lt_is_Some_2 a k Hk) as [row Hrow].
    destruct (lookup_lt_is_Some_2 a' k ltac:(lia)) as [row' Hrow'].
    rewrite Hrow, Hrow'. f_equal. apply list_eq. intros l.
    pose proof (rect_row a k row Ha Hrow) as Hr.
    pose proof (rect_row a' k row' Ha' Hrow') as Hr'.
    destruct (decide (l < length (hd [] a))%nat) as [Hl|Hl].
    + specialize (Hcells (Z.of_nat k) (Z.of_nat l) ltac:(lia) ltac:(lia)).
      rewrite !nd_get_lookup, !Nat2Z.id, Hrow, Hrow' in Hcells by lia.
      exact Hcells.
    + rewrite !lookup_ge_None_2 by lia. done.
  - rewrite !lookup_ge_None_2 by lia. done.
Qed.

Lemma nd_get_uniform (n m : nat) (v : Z) i j :
  0 ≤ i < Z.of_nat n → 0 ≤ j < Z.of_nat m →
  nd_get (replicate n (replicate m v)) i j = Some v.
Proof.
  intros Hi Hj. rewrite nd_get_lookup by lia.
  rewrite (lookup_replicate_2 n (replicate m v) (Z.to_nat i)) by lia. simpl.
  apply lookup_replicate_2. lia.
Qed.

Lemma uniform_rect (n m : nat) (v : Z) : rect (replicate n (replicate m v)).
Proof.
  unfold rect. destruct n as [|n]; [constructor|]. by apply Forall_replicate.
Qed.

Lemma torus_count_uniform (n m : nat) (v : Z) i j :
  0 ≤ i < Z.of_nat n → 0 ≤ j < Z.of_nat m →
  torus_count (replicate n (replicate m v)) i j = if decide (v = 1) then 8 else 0.
Proof.
  intros Hi Hj. unfold torus_count, np_shape. rewrite length_replicate.
  destruct n as [|n]; [lia|]. cbn [replicate hd]. rewrite length_replicate.
  assert (∀ r c, alive (replicate (S n) (replicate m v))
                   (r `mod` Z.of_nat (S n)) (c `mod` Z.of_nat m)
                 = if decide (v = 1) then 1 else 0) as Halive.
  { intros r c. unfold alive.
    rewrite (nd_get_uniform (S n) m v) by (apply Z.mod_pos_bound; lia). done. }
  unfold offsets. cbn [fmap list_fmap foldr]. rewrite !Halive.
  case_decide; done.
Qed.

(** X10. The generation after a uniform board, all dead or all alive,
    is the all-dead board of the same shape: [tick] returns a new
    array of zeros and leaves the rest of the store alone. *)
Theorem tick_of_uniform_board_is_dead
    (h : heap) (board : loc) (n m : nat) (v : Z) :
  h !! board = Some (replicate n (replicate m v)) →
  ∃ out,
    tick board h = Some (out, <[out := replicate n (replicate m 0)]> h) ∧
    h !! out = None.
Proof.
  intros Hb.
  destruct (tick_spec h board _ Hb (uniform_rect n m v))
    as (o & Hrun & Hshape & Hro & Hcells).
  exists (fresh (dom h)). split; [|apply fresh_lookup].
  rewrite Hrun. do 3 f_equal.
  apply nd_ext; [done|apply uniform_rect| |].
  - rewrite Hshape. unfold np_shape. rewrite !length_replicate.
    destruct n; simpl; by rewrite ?length_replicate.
  - rewrite Hshape. intros i j Hi Hj.
    destruct (Hcells i j Hi Hj) as (y & Hy & ->).
    unfold np_shape in Hi, Hj. rewrite length_replicate in Hi.
    destruct n as [|n]; [simpl in Hi; lia|].
    cbn [replicate hd snd fst] in Hj, Hi. rewrite length_replicate in Hj.
    rewrite nd_get_uniform in Hy by done. injection Hy as <-.
    rewrite torus_count_uniform, nd_get_uniform by done. f_equal.
    unfold rules. case_decide as Hv.
    + by subst.
    + destruct (Z.eqb_spec v 1); [done|]. simpl.
      by rewrite andb_false_r.
Qed.

Lemma tick_of_uniform_board_is_dead_witness :
  ({[0%nat := replicate 4 (replicate 5 1)]} : heap) !! 0%nat
    = Some (replicate 4 (replicate 5 1)) ∧
  ∃ out,
    tick 0%nat {[0%nat := replicate 4 (replicate 5 1)]}
      = Some (out, <[out := replicate 4 (replicate 5 0)]>
                     {[0%nat := replicate 4 (replicate 5 1)]}) ∧
    ({[0%nat := replicate 4 (replicate 5 1)]} : heap) !! out = None.
Proof.
  split; [reflexivity|].
  apply (tick_of_uniform_board_is_dead {[0%nat := replicate 4 (replicate 5 1)]}
           0%nat 4 5 1).
  reflexivity.
Defined.

(** ** Edge behaviour of the array accesses *)

(** X11. On a board with a single row, the rows above and below a
    cell are that same row: the cell counts itself twice and each of
    its two horizontal neighbours three times. *)
Theorem single_row_cell_counts_itself
    (h : heap) (board : loc) (b : ndarray) (j : Z) :
  h !! board = Some b → rect b → length b = 1%nat →
  0 ≤ j < snd (np_shape b) →
  count_neighbours board 1 (snd (np_shape b)) 0 j h
  = Some (2 * alive b 0 j
          + 3 * alive b 0 ((j - 1) `mod` snd (np_shape b))
          + 3 * alive b 0 ((j + 1) `mod` snd (np_shape b)), h).
Proof.
  intros Hb Hrect Hlen Hj.
  pose proof (count_neighbours_torus b board h Hb Hrect 0 j) as Hcount.
  unfold np_shape in Hcount, Hj |- *. rewrite Hlen in Hcount.
  cbn [fst snd] in Hcount, Hj |- *. change (Z.of_nat 1) with 1 in Hcount.
  rewrite Hcount by lia. do 2 f_equal.
  unfold torus_count, np_shape, offsets. rewrite Hlen.
  change (Z.of_nat 1) with 1.
  cbn [fmap list_fmap foldr fst snd].
  rewrite !Z.mod_1_r, Z.add_0_r, (Z.mod_small j) by lia.
  change (j + -1) with (j - 1). lia.
Qed.

Lemma single_row_cell_counts_itself_witness :
  ({[0%nat := [[1; 0; 0; 1]]]} : heap) !! 0%nat = Some [[1; 0; 0; 1]] ∧
  rect [[1; 0; 0; 1]] ∧ length [[1; 0; 0; 1]] = 1%nat ∧
  0 ≤ 0 < snd (np_shape [[1; 0; 0; 1]]) ∧
  count_neighbours 0%nat 1 (snd (np_shape [[1; 0; 0; 1]])) 0 0
    {[0%nat := [[1; 0; 0; 1]]]}
  = Some (2 * alive [[1; 0; 0; 1]] 0 0
          + 3 * alive [[1; 0; 0; 1]] 0 ((0 - 1) `mod` snd (np_shape [[1; 0; 0; 1]]))
          + 3 * alive [[1; 0; 0; 1]] 0 ((0 + 1) `mod` snd (np_shape [[1; 0; 0; 1]])),
          {[0%nat := [[1; 0; 0; 1]]]}).
Proof.
  assert (rect [[1; 0; 0; 1]]) as Hrect by (repeat constructor).
  split; [reflexivity|]. split; [exact Hrect|]. split; [reflexivity|].
  split; [simpl; lia|].
  apply (single_row_cell_counts_itself {[0%nat := [[1; 0; 0; 1]]]} 0%nat
           [[1; 0; 0; 1]] 0);
    [reflexivity|exact Hrect|reflexivity|simpl; lia].
Defined.

(** [change_square] on a board in the store, in terms of the array. *)
Lemma change_square_eq (h : heap) board b square :
  h !! board = Some b →
  change_square board square h
  = (y ← nd_get b (snd square) (fst square);
     b1 ← nd_set b (snd square) (fst square) (if decide (y = 0) then 1 else 0);
     Some (board, <[board := b1]> h)).
Proof.
  intros Hb. destruct (change_square board square h) as [[l h']|] eqn:Hch.
  - apply change_square_inv in Hch as (-> & b' & y & b1 & Hb' & Hget & Hset & ->).
    assert (b' = b) as -> by congruence.
    rewrite Hget. simpl. by rewrite Hset.
  - destruct (nd_get b (snd square) (fst square)) as [y|] eqn:Hget; [|done].
    simpl.
    destruct (nd_set b (snd square) (fst square) (if decide (y = 0) then 1 else 0))
      as [b1|] eqn:Hset; [|done].
    by rewrite (change_square_Some h board square b y b1) in Hch.
Qed.

Lemma np_index_minus_one (n : nat) :
  (1 ≤ n)%nat → np_index n (-1) = np_index n (Z.of_nat n - 1).
Proof.
  intros Hn. unfold np_index.
  rewrite (decide_False (P := 0 ≤ -1 < Z.of_nat n)) by lia.
  rewrite (decide_True (P := - Z.of_nat n ≤ -1 < 0)) by lia.
  rewrite (decide_True (P := 0 ≤ Z.of_nat n - 1 < Z.of_nat n)) by lia.
  f_equal. lia.
Qed.

(** X12. Row index -1 denotes the last row: editing square [(x, -1)]
    does what editing square [(x, rows - 1)] does.  This is the edit
    that the test [square[1] == -1] in [paused] keeps from happening. *)
Theorem change_square_row_minus_one_is_last_row
    (h : heap) (board : loc) (b : ndarray) (x : Z) :
  h !! board = Some b → (1 ≤ length b)%nat →
  change_square board (x, -1) h
  = change_square board (x, Z.of_nat (length b) - 1) h.
Proof.
  intros Hb Hn.
  assert (∀ v, nd_set b (-1) x v = nd_set b (Z.of_nat (length b) - 1) x v) as Hset.
  { intros v. unfold nd_set. by rewrite np_index_minus_one. }
  assert (nd_get b (-1) x = nd_get b (Z.of_nat (length b) - 1) x) as Hget.
  { unfold nd_get. by rewrite np_index_minus_one. }
  rewrite !(change_square_eq h board b) by done. cbn [fst snd].
  rewrite Hget.
  destruct (nd_get b (Z.of_nat (length b) - 1) x) as [y|]; [|done]. simpl.
  by rewrite Hset.
Qed.

Lemma change_square_row_minus_one_is_last_row_witness :
  ({[0%nat := blinker]} : heap) !! 0%nat = Some blinker ∧
  (1 ≤ length blinker)%nat ∧
  change_square 0%nat (1, -1) {[0%nat := blinker]}
  = change_square 0%nat (1, Z.of_nat (length blinker) - 1) {[0%nat := blinker]}.
Proof.
  split; [reflexivity|]. split; [simpl; lia|].
  apply (change_square_row_minus_one_is_last_row {[0%nat := blinker]} 0%nat blinker 1);
    [reflexivity|simpl; lia].
Defined.

(** X13. Editing a square outside the board raises: an index at or
    beyond the length of its axis, or below minus that length, makes
    [change_square] fail, and nothing is written. *)
Theorem change_square_out_of_range_raises
    (h : heap) (board : loc) (b : ndarray) (square : Z * Z) :
  h !! board = Some b → rect b →
  ¬ (- fst (np_shape b) ≤ snd square < fst (np_shape b)) ∨
  ¬ (- snd (np_shape b) ≤ fst square < snd (np_shape b)) →
  change_square board square h = None.
Proof.
  intros Hb Hrect Hout.
  assert (nd_get b (snd square) (fst square) = None) as Hget.
  { unfold nd_get, np_shape in *. cbn [fst snd] in Hout.
    destruct (np_index (length b) (snd square)) as [k|] eqn:Hk; [|done]. simpl.
    destruct (b !! k) as [row|] eqn:Hrow; [|done]. simpl.
    rewrite (rect_row b k row Hrect Hrow).
    destruct (np_index (length (hd [] b)) (fst square)) as [c|] eqn:Hc; [|done].
    unfold np_index in Hk, Hc. repeat case_decide; simplify_eq; lia. }
  rewrite (change_square_eq h board b) by done. by rewrite Hget.
Qed.

Lemma change_square_out_of_range_raises_witness :
  ({[0%nat := blinker]} : heap) !! 0%nat = Some blinker ∧ rect blinker ∧
  (¬ (- fst (np_shape blinker) ≤ snd (1, 3) < fst (np_shape blinker)) ∨
   ¬ (- snd (np_shape blinker) ≤ fst (1, 3) < snd (np_shape blinker))) ∧
  change_square 0%nat (1, 3) {[0%nat := blinker]} = None.
Proof.
  split; [reflexivity|]. split; [exact blinker_rect|].
  split; [left; simpl; lia|].
  apply (change_square_out_of_range_raises {[0%nat := blinker]} 0%nat blinker (1, 3));
    [reflexivity|exact blinker_rect|left; simpl; lia].
Defined.

(** ** Drawing the board *)

(** A loop invariant for [for_fold], indexed by the elements already
    handled. *)
Lemma for_fold_inv {A S} (P : list A → S → heap → Prop)
    (xs : list A) (body : A → S → M S) :
  (∀ pre x post s h, xs = pre ++ x :: post → P pre s h →
     ∃ s' h', body x s h = Some (s', h') ∧ P (pre ++ [x]) s' h') →
  ∀ s h, P [] s h → ∃ s' h', for_fold xs body s h = Some (s', h') ∧ P xs s' h'.
Proof.
  intros Hbody.
  assert (∀ post pre s h, xs = pre ++ post → P pre s h →
            ∃ s' h', for_fold post body s h = Some (s', h') ∧ P xs s' h') as Hgen.
  { induction post as [|x post IH]; intros pre s h Hxs Hpre.
    - exists s, h. rewrite app_nil_r in Hxs. subst. done.
    - destruct (Hbody pre x post s h Hxs Hpre) as (s1 & h1 & Hx & H1).
      destruct (IH (pre ++ [x]) s1 h1) as (s2 & h2 & Hrest & H2).
      { by rewrite <- app_assoc. }
      { done. }
      exists s2, h2. split; [|done].
      cbn [for_fold]. rewrite (bind_Some _ _ _ _ _ Hx). exact Hrest. }
  intros s h Hh. by apply (Hgen xs [] s h).
Qed.

Section Draw.
Variables (b : ndarray) (board : loc) (h : heap) (cellsize border_size : Z).
Hypothesis Hboard : h !! board = Some b.
Hypothesis Hrect : rect b.

Let width := fst (np_shape b).
Let height := snd (np_shape b).

(** What [draw] paints for cell [(i, j)] holding [y]. *)
Let paint (i j y : Z) : drawing :=
  DrawRect (if decide (y = 0) then BLACK else WHITE)
    (cell_rect cellsize border_size i j) 0.

Lemma draw_row (surface : list drawing) (i : Z) :
  0 ≤ i < width →
  ∃ new,
    for_fold (seqZ 0 height) (λ j surface,
      y ← getitem board i j;
      let col := if decide (y = 0) then BLACK else WHITE in
      mret (surface ++ [DrawRect col (cell_rect cellsize border_size i j) 0]))
      surface h
    = Some (surface ++ new, h) ∧
    length new = Z.to_nat height ∧
    ∀ d, d ∈ new ↔
         ∃ j y, (0 ≤ j < height) ∧ nd_get b i j = Some y ∧ d = paint i j y.
Proof.
  intros Hi.
  pose (P := λ (js : list Z) (s : list drawing) (h' : heap),
          h' = h ∧ ∃ new, s = surface ++ new ∧ length new = length js ∧
            ∀ d, d ∈ new ↔ ∃ j y, j ∈ js ∧ nd_get b i j = Some y ∧ d = paint i j y).
  destruct (for_fold_inv P (seqZ 0 height)
              (λ j surface,
                 y ← getitem board i j;
                 let col := if decide (y = 0) then BLACK else WHITE in
                 mret (surface ++ [DrawRect col (cell_rect cellsize border_size i j) 0])))
    with (s := surface) (h := h)
    as (s' & h' & Hrun & -> & new & -> & Hlen & Hmem).
  - intros pre j post s h0 Hsplit (-> & new & -> & Hlen & Hmem).
    apply seqZ_split_bounds in Hsplit as (Hj & _ & _).
    destruct (nd_get_in_range b i j Hrect Hi Hj) as [y Hy].
    exists ((surface ++ new) ++ [paint i j y]), h. split.
    + by rewrite (bind_Some _ _ _ y h) by (by apply (getitem_Some _ _ _ _ b)).
    + split; [done|]. exists (new ++ [paint i j y]).
      split; [by rewrite app_assoc|]. split; [rewrite !length_app; simpl; lia|].
      intros d. rewrite elem_of_app, list_elem_of_singleton, Hmem. split.
      * intros [(j' & y' & Hj' & Hy' & ->)| ->].
        -- exists j', y'. split_and!; [|done..]. apply elem_of_app. by left.
        -- exists j, y. split_and!; [|done..].
           apply elem_of_app. right. by apply list_elem_of_singleton.
      * intros (j' & y' & [Hj'| ->%list_elem_of_singleton]%elem_of_app & Hy' & ->).
        -- left. by exists j', y'.
        -- right. congruence.
  - split; [done|]. exists []. split; [by rewrite app_nil_r|]. split; [done|].
    intros d. split; [by intros ?%elem_of_nil|].
    by intros (j & y & ?%elem_of_nil & _).
  - exists new. split; [done|]. split; [by rewrite Hlen, length_seqZ|].
    intros d. rewrite Hmem. split; intros (j & y & Hj & Hrest); exists j, y;
      (split; [|done]); apply elem_of_seqZ in Hj || apply elem_of_seqZ; lia.
Qed.

Lemma draw_rows (surface : list drawing) :
  ∃ new,
    for_fold (seqZ 0 width) (λ i surface,
      for_fold (seqZ 0 height) (λ j surface,
        y ← getitem board i j;
        let col := if decide (y = 0) then BLACK else WHITE in
        mret (surface ++ [DrawRect col (cell_rect cellsize border_size i j) 0]))
        surface) surface h
    = Some (surface ++ new, h) ∧
    length new = (Z.to_nat width * Z.to_nat height)%nat ∧
    ∀ d, d ∈ new ↔
         ∃ i j y, (0 ≤ i < width) ∧ (0 ≤ j < height) ∧
                  nd_get b i j = Some y ∧ d = paint i j y.
Proof.
  pose (P := λ (rows : list Z) (s : list drawing) (h' : heap),
          h' = h ∧ ∃ new, s = surface ++ new ∧
            length new = (length rows * Z.to_nat height)%nat ∧
            ∀ d, d ∈ new ↔
                 ∃ i j y, i ∈ rows ∧ (0 ≤ j < height) ∧
                          nd_get b i j = Some y ∧ d = paint i j y).
  destruct (for_fold_inv P (seqZ 0 width)
              (λ i surface,
                 for_fold (seqZ 0 height) (λ j surface,
                   y ← getitem board i j;
                   let col := if decide (y = 0) then BLACK else WHITE in
                   mret (surface ++ [DrawRect col (cell_rect cellsize border_size i j) 0]))
                   surface))
    with (s := surface) (h := h)
    as (s' & h' & Hrun & -> & new & -> & Hlen & Hmem).
  - intros pre i post s h0 Hsplit (-> & new & -> & Hlen & Hmem).
    apply seqZ_split_bounds in Hsplit as (Hi & _ & _).
    destruct (draw_row (surface ++ new) i Hi) as (newr & Hrun & Hlenr & Hmemr).
    exists ((surface ++ new) ++ newr), h. split; [exact Hrun|].
    split; [done|]. exists (new ++ newr).
    split; [by rewrite app_assoc|].
    split; [rewrite !length_app; simpl; lia|].
    intros d. rewrite elem_of_app, Hmem, Hmemr. split.
    + intros [(i' & j & y & Hi' & Hj & Hy & ->)|(j & y & Hj & Hy & ->)].
      * exists i', j, y. split; [|auto]. apply elem_of_app. by left.
      * exists i, j, y. split; [|auto].
        apply elem_of_app. right. by apply list_elem_of_singleton.
    + intros (i' & j & y & [Hi'| ->%list_elem_of_singleton]%elem_of_app
              & Hj & Hy & ->).
      * left. exists i', j, y. auto.
      * right. exists j, y. auto.
  - split; [done|]. exists []. split; [by rewrite app_nil_r|]. split; [done|].
    intros d. split; [by intros ?%elem_of_nil|].
    by intros (i & j & y & ?%elem_of_nil & _).
  - exists new. split; [done|]. split; [by rewrite Hlen, length_seqZ|].
    intros d. rewrite Hmem.
    split; intros (i & j & y & Hi & Hrest); exists i, j, y;
      (split; [|done]); apply elem_of_seqZ in Hi || apply elem_of_seqZ; lia.
Qed.

End Draw.

(** X14. [draw] returns the board it was given and leaves the store as
    it was; on the surface it adds, after what was there, one filled
    rectangle for each cell of the board and nothing else: black for a
    cell holding 0 and white otherwise, at the cell's place. *)
Theorem draw_paints_every_cell
    (h : heap) (board : loc) (b : ndarray) (surface : list drawing)
    (cellsize border_size : Z) :
  h !! board = Some b → rect b →
  ∃ new,
    draw board surface cellsize border_size h = Some ((board, surface ++ new), h) ∧
    length new = (length b * length (hd [] b))%nat ∧
    ∀ d, d ∈ new ↔
         ∃ i j y,
           (0 ≤ i < fst (np_shape b)) ∧ (0 ≤ j < snd (np_shape b)) ∧
           nd_get b i j = Some y ∧
           d = DrawRect (if decide (y = 0) then BLACK else WHITE)
                 (cell_rect cellsize border_size i j) 0.
Proof.
  intros Hb Hrect.
  destruct (draw_rows b board h cellsize border_size Hb Hrect surface)
    as (new & Hrun & Hlen & Hmem).
  exists new. split_and!; [|by rewrite Hlen; simpl; rewrite !Nat2Z.id|done].
  unfold draw.
  rewrite (bind_Some _ _ _ (np_shape b) h) by (unfold shape; by rewrite Hb).
  unfold np_shape at 1.
  by rewrite (bind_Some _ _ _ (surface ++ new) h) by exact Hrun.
Qed.

Lemma draw_paints_every_cell_witness :
  ({[0%nat := blinker]} : heap) !! 0%nat = Some blinker ∧ rect blinker ∧
  ∃ new,
    draw 0%nat [DisplayUpdate] 30 BORDER {[0%nat := blinker]}
      = Some ((0%nat, [DisplayUpdate] ++ new), {[0%nat := blinker]}) ∧
    length new = (length blinker * length (hd [] blinker))%nat ∧
    ∀ d, d ∈ new ↔
         ∃ i j y,
           (0 ≤ i < fst (np_shape blinker)) ∧ (0 ≤ j < snd (np_shape blinker)) ∧
           nd_get blinker i j = Some y ∧
           d = DrawRect (if decide (y = 0) then BLACK else WHITE)
                 (cell_rect 30 BORDER i j) 0.
Proof.
  split; [reflexivity|]. split; [exact blinker_rect|].
  apply (draw_paints_every_cell {[0%nat := blinker]} 0%nat blinker [DisplayUpdate]
           30 BORDER);
    [reflexivity|exact blinker_rect].
Defined.

(** ** Changing mode *)

(** X15. Pausing and resuming loses nothing: a click on the control
    square while [paused] runs, followed by a click on the control
    square while [play] runs, brings control back to [paused] on the
    same store and the same board, with the timer armed. *)
Theorem control_click_round_trip
    (cellsize border_size dimx dimy : Z) (pos pos' : Z * Z) (g : game) :
  1 ≤ dimx → 1 ≤ dimy →
  (0 ≤ fst pos < cellsize + border_size) → (0 ≤ snd pos < cellsize + border_size) →
  (0 ≤ fst pos' < cellsize + border_size) → (0 ≤ snd pos' < cellsize + border_size) →
  step cellsize border_size dimx dimy (InPaused g) [MOUSEBUTTONDOWN true pos]
    = InPlay (set_timer g) ∧
  run cellsize border_size dimx dimy (InPaused g)
    [[MOUSEBUTTONDOWN true pos]; [MOUSEBUTTONDOWN true pos']]
    = InPaused (set_timer g).
Proof.
  intros Hdx Hdy Hx Hy Hx' Hy'.
  assert (∀ p, 0 ≤ fst p < cellsize + border_size →
               0 ≤ snd p < cellsize + border_size →
               pos_to_square p cellsize border_size dimx dimy = Some ((0, -1), true))
    as Hcontrol.
  { intros p Hpx Hpy. unfold pos_to_square. rewrite decide_False by lia.
    rewrite (quot_cell (fst p) _ 0), (quot_cell (snd p) _ 0) by lia.
    by rewrite !decide_False by lia. }
  assert (step cellsize border_size dimx dimy (InPaused g) [MOUSEBUTTONDOWN true pos]
          = InPlay (set_timer g)) as Hfirst.
  { cbn [step paused_events]. by rewrite Hcontrol. }
  split; [done|]. unfold run. cbn [foldl]. rewrite Hfirst.
  cbn [step]. unfold play_pass. cbn [play_events]. by rewrite Hcontrol.
Qed.

Lemma control_click_round_trip_witness :
  1 ≤ VERTICAL_CELLS ∧ 1 ≤ HORIZONTAL_CELLS ∧
  (0 ≤ fst (10, 10) < 30 + BORDER) ∧ (0 ≤ snd (10, 10) < 30 + BORDER) ∧
  (0 ≤ fst (31, 0) < 30 + BORDER) ∧ (0 ≤ snd (31, 0) < 30 + BORDER) ∧
  step 30 BORDER VERTICAL_CELLS HORIZONTAL_CELLS (InPaused start_game)
    [MOUSEBUTTONDOWN true (10, 10)]
    = InPlay (set_timer start_game) ∧
  run 30 BORDER VERTICAL_CELLS HORIZONTAL_CELLS (InPaused start_game)
    [[MOUSEBUTTONDOWN true (10, 10)]; [MOUSEBUTTONDOWN true (31, 0)]]
    = InPaused (set_timer start_game).
Proof.
  split; [unfold VERTICAL_CELLS; lia|]. split; [unfold HORIZONTAL_CELLS; lia|].
  split; [unfold BORDER; simpl; lia|]. split; [unfold BORDER; simpl; lia|].
  split; [unfold BORDER; simpl; lia|]. split; [unfold BORDER; simpl; lia|].
  apply (control_click_round_trip 30 BORDER VERTICAL_CELLS HORIZONTAL_CELLS
           (10, 10) (31, 0) start_game);
    [unfold VERTICAL_CELLS; lia|unfold HORIZONTAL_CELLS; lia
    |unfold BORDER; simpl; lia..].
Defined.

(** X16. While [play] runs, the game a batch of events leaves behind
    depends on its TICK events only: if the batch is handled without
    QUIT or exception, the batch stripped of everything but its TICKs
    leaves the same store, board and timer.  Clicks, wherever they
    fall among the ticks, decide only whether [play] goes on. *)
Theorem play_board_depends_on_ticks_only
    (cellsize border_size dimx dimy : Z) (es : list event)
    (pause pause' : bool) (g g' : game) :
  play_events cellsize border_size dimx dimy es pause g = Some (Some (pause', g')) →
  play_events cellsize border_size dimx dimy (ticks_of es) false g
  = Some (Some (false, g')).
Proof.
  revert pause g. induction es as [|e es IH]; intros pause g Hrun.
  - simpl in *. by simplify_eq.
  - destruct e as [|[] pos| |]; cbn [play_events ticks_of] in *;
      [done| |by apply (IH pause)| |by apply (IH pause)].
    + destruct (pos_to_square _ _ _ _ _) as [[square p]|]; [|done].
      by apply (IH p).
    + destruct ((np_copy (mainBoard g) ≫= _) (store g)) as [[l h']|]; [|done].
      by apply (IH pause).
Qed.

Lemma play_board_depends_on_ticks_only_witness :
  play_events 30 BORDER 3 3
    [MOUSEBUTTONDOWN true (10, 10); TICK; MOUSEBUTTONDOWN true (70, 70)]
    false (Game {[0%nat := blinker]} 0%nat None)
  = Some (Some (false,
                Game (<[2%nat := [[1; 1; 1]; [1; 1; 1]; [1; 1; 1]]]>
                        (<[1%nat := blinker]> {[0%nat := blinker]}))
                  2%nat (Some TICK_SPEED))) ∧
  play_events 30 BORDER 3 3
    (ticks_of [MOUSEBUTTONDOWN true (10, 10); TICK; MOUSEBUTTONDOWN true (70, 70)])
    false (Game {[0%nat := blinker]} 0%nat None)
  = Some (Some (false,
                Game (<[2%nat := [[1; 1; 1]; [1; 1; 1]; [1; 1; 1]]]>
                        (<[1%nat := blinker]> {[0%nat := blinker]}))
                  2%nat (Some TICK_SPEED))).
Proof.
  split; [reflexivity|].
  apply (play_board_depends_on_ticks_only 30 BORDER 3 3
           [MOUSEBUTTONDOWN true (10, 10); TICK; MOUSEBUTTONDOWN true (70, 70)]
           false false
           (Game {[0%nat := blinker]} 0%nat None)).
  reflexivity.
Defined.
